(** * A SOAP-flavoured user service: the request handler of main.py

    The service of [main.py] answers POST /soap: it scans the request text for
    an operation tag and up to four field tags, runs one of five operations on
    the list of users kept in [users.json], and answers with a fixed XML
    envelope around an operation-specific fragment.

    Conventions of the embedding.
    - A Python [str] is a [string]; its characters are the code points below
      256, and the classes [\d] and [\w] are Python's on that range.
    - A Python [int] is a [Z].  [int] of a text has CPython's cap on the number
      of digits, at its default of 4300 (the interpreter's setting since
      version 3.11).  The converse cap, on the text of an int, is not
      modelled: a collection that loads holds no number of more digits, and
      only the id that follows the largest 4300-digit id would exceed it.
    - An exception is a [Raise] in the [result] type; the handler runs in a
      state-and-exception monad over the content of the data file.
    - [soap_endpoint] is the handler from the decoded text on;
      [soap_endpoint_of_body] puts the decoding of the request body in
      front of it. *)

From Stdlib Require Import ZArith List String Ascii Bool Lia Sorted DecimalString DecimalZ DecimalPos.
Import ListNotations.

Local Open Scope string_scope.
Local Open Scope list_scope.
Local Open Scope Z_scope.

(** Text concatenation, kept apart from list append. *)
Infix "+++" := String.append (right associativity, at level 60).

(** ** Exceptions *)

Inductive exn : Type :=
| UnicodeDecodeError  (* bytes.decode on a body that is not UTF-8 *)
| ValueError          (* int() on a text that is not a number, or too long *)
| ValidationError     (* the User model rejects a field *)
| FileNotFoundError   (* open() on a missing data file *)
| LoadError.          (* json.load or the User model rejects the file content *)

Inductive result (A : Type) : Type :=
| Ok (a : A)
| Raise (e : exn).
Arguments Ok {A} a.
Arguments Raise {A} e.

Definition rbind {A B} (r : result A) (k : A -> result B) : result B :=
  match r with
  | Ok a => k a
  | Raise e => Raise e
  end.

Notation "x <- r ;; k" := (rbind r (fun x => k))
  (at level 61, r at next level, right associativity).

(** ** Text *)

Module Text.

Definition nl : string := String (ascii_of_nat 10) EmptyString.
Definition quot : string := String (ascii_of_nat 34) EmptyString.

Definition code (c : ascii) : N := N_of_ascii c.

Definition between (lo hi : N) (c : ascii) : bool :=
  (N.leb lo (code c) && N.leb (code c) hi)%bool.

(** [\d] of a text pattern: the decimal digits. Below 256 these are 0-9. *)
Definition isdecimal (c : ascii) : bool := between 48 57 c.

(** [str.isalnum] on one character: a letter, or a decimal, digit or
    numeric character. Below 256, besides 0-9, A-Z and a-z: the ordinal
    indicators, the micro sign, superscript 1 2 3, the three vulgar
    fractions, and the accented letters but for the two operators. *)
Definition isalnum (c : ascii) : bool :=
  (between 48 57 c || between 65 90 c || between 97 122 c
   || N.eqb (code c) 170 || N.eqb (code c) 181 || N.eqb (code c) 186
   || between 178 179 c || N.eqb (code c) 185 || between 188 190 c
   || between 192 214 c || between 216 246 c || between 248 255 c)%bool.

(** [\w]: alphanumeric or the underscore. *)
Definition isword (c : ascii) : bool :=
  (isalnum c || N.eqb (code c) 95)%bool.

(** [[^<]]: anything but the opening angle bracket, line breaks included. *)
Definition notlt (c : ascii) : bool := negb (N.eqb (code c) 60).

(** [s.startswith(p)] *)
Fixpoint startswith (p s : string) : bool :=
  match p, s with
  | EmptyString, _ => true
  | String a p', String b s' => (Ascii.eqb a b && startswith p' s')%bool
  | String _ _, EmptyString => false
  end.

(** [sub in s] *)
Fixpoint contains (sub s : string) : bool :=
  (startswith sub s ||
   match s with
   | EmptyString => false
   | String _ s' => contains sub s'
   end)%bool.

Fixpoint all (cls : ascii -> bool) (s : string) : bool :=
  match s with
  | EmptyString => true
  | String c s' => (cls c && all cls s')%bool
  end.

(** [str(n)] for an int. *)
Definition str_of_int (n : Z) : string := NilZero.string_of_int (Z.to_int n).

Fixpoint int_digits (acc : Z) (s : string) : result Z :=
  match s with
  | EmptyString => Ok acc
  | String c s' =>
      if isdecimal c
      then int_digits (10 * acc + (Z.of_N (code c) - 48)) s'
      else Raise ValueError
  end.

(** The default of [sys.get_int_max_str_digits()]. *)
Definition max_str_digits : nat := 4300.

(** [int(s)] for a text of decimal digits: a text of more digits than the
    cap is a [ValueError], leading zeros counted. Python reads a few more
    forms (blanks around, a sign, single underscores); every text that is
    not plain digits is a [ValueError] here, which is the safe side for the
    texts the patterns below capture. *)
Definition int_of_str (s : string) : result Z :=
  match s with
  | EmptyString => Raise ValueError
  | _ =>
      if Nat.ltb max_str_digits (String.length s)
      then Raise ValueError
      else int_digits 0 s
  end.

End Text.

(** ** Decoding the request body *)

Module Utf8.

Definition within (lo hi b : N) : bool := (N.leb lo b && N.leb b hi)%bool.

(** A continuation byte, 80 to BF. *)
Definition cont (b : N) : bool := within 128 191 b.

(** The second byte of a three-byte sequence: E0 wants A0 to BF (no overlong
    form), ED wants 80 to 9F (no surrogate). *)
Definition second3 (b0 b1 : N) : bool :=
  if N.eqb b0 224 then within 160 191 b1
  else if N.eqb b0 237 then within 128 159 b1
  else cont b1.

(** The second byte of a four-byte sequence: F0 wants 90 to BF, F4 wants 80
    to 8F (nothing above 10FFFF). *)
Definition second4 (b0 b1 : N) : bool :=
  if N.eqb b0 240 then within 144 191 b1
  else if N.eqb b0 244 then within 128 143 b1
  else cont b1.

(** Strict UTF-8: the code points of the byte values, or the error. *)
Fixpoint code_points (body : list N) : result (list N) :=
  match body with
  | [] => Ok []
  | b0 :: r0 =>
      if N.ltb b0 128 then
        t <- code_points r0 ;; Ok (b0 :: t)
      else if within 194 223 b0 then
        match r0 with
        | b1 :: r1 =>
            if cont b1
            then t <- code_points r1 ;; Ok (((b0 - 192) * 64 + (b1 - 128))%N :: t)
            else Raise UnicodeDecodeError
        | _ => Raise UnicodeDecodeError
        end
      else if within 224 239 b0 then
        match r0 with
        | b1 :: b2 :: r2 =>
            if (second3 b0 b1 && cont b2)%bool
            then t <- code_points r2 ;;
                 Ok (((b0 - 224) * 4096 + (b1 - 128) * 64 + (b2 - 128))%N :: t)
            else Raise UnicodeDecodeError
        | _ => Raise UnicodeDecodeError
        end
      else if within 240 244 b0 then
        match r0 with
        | b1 :: b2 :: b3 :: r3 =>
            if (second4 b0 b1 && cont b2 && cont b3)%bool
            then t <- code_points r3 ;;
                 Ok (((b0 - 240) * 262144 + (b1 - 128) * 4096
                      + (b2 - 128) * 64 + (b3 - 128))%N :: t)
            else Raise UnicodeDecodeError
        | _ => Raise UnicodeDecodeError
        end
      else Raise UnicodeDecodeError
  end.

(** [body.decode('utf-8')] *)
Definition decode (body : list Byte.byte) : result (list N) :=
  code_points (map Byte.to_N body).

(** The decoded text as a [string], when all its code points are below 256;
    [None] is a text this development does not follow. *)
Fixpoint narrow (cps : list N) : option string :=
  match cps with
  | [] => Some EmptyString
  | c :: r =>
      if N.ltb c 256
      then option_map (String (ascii_of_N c)) (narrow r)
      else None
  end.

End Utf8.

(** ** Pattern search *)

Module Re.

(** The six patterns of the program have one shape: a literal, one group
    holding a greedy repetition [C+] of a character class, a literal. *)
Record pattern : Type := mkPattern {
  before : string;
  cls : ascii -> bool;
  after : string
}.

(** The group [(C+)] followed by [after], at the head of [s]: the longest
    run is tried first and given back one character at a time. *)
Fixpoint group (cls : ascii -> bool) (after : string) (s : string) : option string :=
  match s with
  | EmptyString => None
  | String c s' =>
      if cls c then
        match group cls after s' with
        | Some g => Some (String c g)
        | None => if Text.startswith after s' then Some (String c EmptyString) else None
        end
      else None
  end.

Fixpoint skip (p s : string) : option string :=
  match p, s with
  | EmptyString, _ => Some s
  | String a p', String b s' => if Ascii.eqb a b then skip p' s' else None
  | String _ _, EmptyString => None
  end.

(** [re.match]: the pattern at the head of [s]; the result is [group(1)]. *)
Definition match_here (p : pattern) (s : string) : option string :=
  match skip (before p) s with
  | Some rest => group (cls p) (after p) rest
  | None => None
  end.

(** [re.search]: the leftmost position where the pattern matches. *)
Fixpoint search (p : pattern) (s : string) : option string :=
  match match_here p s with
  | Some g => Some g
  | None =>
      match s with
      | EmptyString => None
      | String _ s' => search p s'
      end
  end.

End Re.

(** ** Data model *)

Record User : Type := mkUser {
  id : Z;
  name : string;
  email : string;
  age : Z
}.

(** The [User(...)] call of CreateUser: [name] is already a text, [email] and
    [age] are what [params.get] gave, and the model has no optional field. *)
Definition User_new (i : Z) (n : string) (e : option string) (a : option Z) : result User :=
  match e, a with
  | Some e', Some a' => Ok (mkUser i n e' a')
  | _, _ => Raise ValidationError
  end.

(** The [params] dict: its keys are among these four, each with the one type
    the interpreter gives it; [None] is an absent key. *)
Record params : Type := mkParams {
  p_id : option Z;
  p_name : option string;
  p_email : option string;
  p_age : option Z
}.

Definition no_params : params := mkParams None None None None.

(** ** Request interpreter *)

Definition operation_re : Re.pattern := Re.mkPattern "<" Text.isword "Request".
Definition id_re : Re.pattern := Re.mkPattern "<id>" Text.isdecimal "</id>".
Definition name_re : Re.pattern := Re.mkPattern "<name>" Text.notlt "</name>".
Definition email_re : Re.pattern := Re.mkPattern "<email>" Text.notlt "</email>".
Definition age_re : Re.pattern := Re.mkPattern "<age>" Text.isdecimal "</age>".

(** One [if 'tag>' in xml_content: ... re.search ...] block for a text field. *)
Definition text_field (tag : string) (p : Re.pattern) (xml_content : string) : option string :=
  if Text.contains tag xml_content then Re.search p xml_content else None.

(** The same block for [id] and [age], with its [int(...)]. *)
Definition int_field (tag : string) (p : Re.pattern) (xml_content : string) : result (option Z) :=
  if Text.contains tag xml_content then
    match Re.search p xml_content with
    | Some g => n <- Text.int_of_str g ;; Ok (Some n)
    | None => Ok None
    end
  else Ok None.

(** [None] is the empty dict of an unrecognised request. *)
Definition parse_soap_request (xml_content : string) : result (option (string * params)) :=
  match Re.search operation_re xml_content with
  | None => Ok None
  | Some op_name =>
      i <- int_field "id>" id_re xml_content ;;
      let n := text_field "name>" name_re xml_content in
      let e := text_field "email>" email_re xml_content in
      a <- int_field "age>" age_re xml_content ;;
      Ok (Some (op_name, mkParams i n e a))
  end.


(** ** Record store *)

(** What [users.json] holds: nothing (no file), a content that does not load,
    or the list its records load to. A list written by [write_users] loads
    back to itself. *)
Inductive file_state : Type :=
| Absent
| Corrupt
| Stored (users : list User).

(** The handler reads and writes the data file and may raise. *)
Definition M (A : Type) : Type := file_state -> result A * file_state.

Definition ret {A} (a : A) : M A := fun f => (Ok a, f).

Definition bind {A B} (m : M A) (k : A -> M B) : M B :=
  fun f =>
    match m f with
    | (Ok a, f') => k a f'
    | (Raise e, f') => (Raise e, f')
    end.

Definition lift {A} (r : result A) : M A := fun f => (r, f).

Notation "x <~ m ;; k" := (bind m (fun x => k))
  (at level 61, m at next level, right associativity).

Definition init_db (f : file_state) : file_state :=
  match f with
  | Absent => Stored []
  | _ => f
  end.

Definition read_users : M (list User) :=
  fun f =>
    match f with
    | Stored users => (Ok users, f)
    | Absent => (Raise FileNotFoundError, f)
    | Corrupt => (Raise LoadError, f)
    end.

Definition write_users (users : list User) : M unit :=
  fun _ => (Ok tt, Stored users).

(** ** Envelope and fragments *)

Import Text.

Definition create_soap_response (body_content : string) : string :=
  "<?xml version=" +++ quot +++ "1-0" +++ quot +++ " encoding=" +++ quot +++ "UTF-8" +++ quot +++ "?>" +++ nl +++
  "<soap:Envelope xmlns:soap=" +++ quot +++ "http://schemas.xmlsoap.org/soap/envelope/" +++ quot +++ ">" +++ nl +++
  "    <soap:Body>" +++ nl +++
  "        " +++ body_content +++ nl +++
  "    </soap:Body>" +++ nl +++
  "</soap:Envelope>".

Definition user_to_xml (user : User) : string :=
  "<User>" +++ nl +++
  "    <id>" +++ str_of_int (id user) +++ "</id>" +++ nl +++
  "    <name>" +++ name user +++ "</name>" +++ nl +++
  "    <email>" +++ email user +++ "</email>" +++ nl +++
  "    <age>" +++ str_of_int (age user) +++ "</age>" +++ nl +++
  "</User>".

Definition all_users_body (users : list User) : string :=
  "<GetAllUsersResponse>" +++ nl +++
  "        " +++ String.concat (nl +++ "        ") (map user_to_xml users) +++ nl +++
  "    </GetAllUsersResponse>".

Definition user_body (user : User) : string :=
  "<GetUserResponse>" +++ nl +++
  "        " +++ user_to_xml user +++ nl +++
  "    </GetUserResponse>".

Definition user_not_found_body : string :=
  "<GetUserResponse>" +++ nl +++
  "        <error>User not found</error>" +++ nl +++
  "    </GetUserResponse>".

Definition created_body (new_user : User) : string :=
  "<CreateUserResponse>" +++ nl +++
  "        <success>true</success>" +++ nl +++
  "        " +++ user_to_xml new_user +++ nl +++
  "    </CreateUserResponse>".

Definition updated_body (updated_user : User) : string :=
  "<UpdateUserResponse>" +++ nl +++
  "        <success>true</success>" +++ nl +++
  "        <message>User updated successfully</message>" +++ nl +++
  "        " +++ user_to_xml updated_user +++ nl +++
  "    </UpdateUserResponse>".

Definition update_not_found_body : string :=
  "<UpdateUserResponse>" +++ nl +++
  "        <success>false</success>" +++ nl +++
  "        <error>User not found</error>" +++ nl +++
  "    </UpdateUserResponse>".

Definition deleted_body : string :=
  "<DeleteUserResponse>" +++ nl +++
  "        <success>true</success>" +++ nl +++
  "        <message>User deleted successfully</message>" +++ nl +++
  "    </DeleteUserResponse>".

Definition unknown_operation_body : string :=
  "<Error>" +++ nl +++
  "        <message>Unknown operation</message>" +++ nl +++
  "    </Error>".

(** ** Operation dispatcher *)

(** [u.id == user_id], where [user_id] is [params.get('id')]: an int, or
    [None], which equals no int. *)
Definition id_is (user_id : option Z) (u : User) : bool :=
  match user_id with
  | Some i => Z.eqb (id u) i
  | None => false
  end.

(** [max(l, default=d)] *)
Definition max_default (l : list Z) (d : Z) : Z :=
  match l with
  | [] => d
  | x :: xs => fold_left Z.max xs x
  end.

Definition new_id (users : list User) : Z := max_default (map id users) 0 + 1.

(** [str(params.get('name'))] *)
Definition str_of_opt (v : option string) : string :=
  match v with
  | Some s => s
  | None => "None"
  end.

(** The three guarded assignments of UpdateUser on one record. *)
Definition assign (p : params) (u : User) : User :=
  let u1 := match p_name p with
            | Some n => mkUser (id u) n (email u) (age u)
            | None => u
            end in
  let u2 := match p_email p with
            | Some e => mkUser (id u1) (name u1) e (age u1)
            | None => u1
            end in
  match p_age p with
  | Some a => mkUser (id u2) (name u2) (email u2) a
  | None => u2
  end.

(** The loop of UpdateUser: it stops at the first record with the id. The
    result is the list after the loop and [updated_user], or [None] when
    [user_found] stays false. *)
Fixpoint update_loop (user_id : option Z) (p : params) (users : list User)
  : option (list User * User) :=
  match users with
  | [] => None
  | user :: rest =>
      if id_is user_id user
      then Some (assign p user :: rest, assign p user)
      else match update_loop user_id p rest with
           | Some (rest', updated_user) => Some (user :: rest', updated_user)
           | None => None
           end
  end.

Definition GetAllUsers : M string :=
  users <~ read_users ;;
  ret (all_users_body users).

Definition GetUser (p : params) : M string :=
  let user_id := p_id p in
  users <~ read_users ;;
  match find (id_is user_id) users with
  | Some user => ret (user_body user)
  | None => ret user_not_found_body
  end.

Definition CreateUser (p : params) : M string :=
  users <~ read_users ;;
  new_user <~ lift (User_new (new_id users) (str_of_opt (p_name p)) (p_email p) (p_age p)) ;;
  _ <~ write_users (users ++ [new_user]) ;;
  ret (created_body new_user).

Definition UpdateUser (p : params) : M string :=
  let user_id := p_id p in
  users <~ read_users ;;
  match update_loop user_id p users with
  | Some (users', updated_user) =>
      _ <~ write_users users' ;;
      ret (updated_body updated_user)
  | None => ret update_not_found_body
  end.

Definition DeleteUser (p : params) : M string :=
  let user_id := p_id p in
  users <~ read_users ;;
  _ <~ write_users (filter (fun u => negb (id_is user_id u)) users) ;;
  ret deleted_body.

Record Response : Type := mkResponse {
  status_code : Z;
  media_type : string;
  content : string
}.

(** [FastAPIResponse(content=..., media_type=...)]; the status is the
    constructor's default. *)
Definition FastAPIResponse (content media_type : string) : Response :=
  mkResponse 200 media_type content.

(** [operation == lit], where [operation] is [soap_data.get('operation')]. *)
Definition op_is (operation : option string) (lit : string) : bool :=
  match operation with
  | Some o => String.eqb o lit
  | None => false
  end.

(** The handler from the line that interprets [xml_content] on; the two
    lines before it, which read and decode the body, are in
    [soap_endpoint_of_body] below. *)
Definition soap_endpoint (xml_content : string) : M Response :=
  soap_data <~ lift (parse_soap_request xml_content) ;;
  let operation := option_map fst soap_data in
  let p := match soap_data with
           | Some (_, p) => p
           | None => no_params
           end in
  response_body <~
    (if op_is operation "GetAllUsers" then GetAllUsers
     else if op_is operation "GetUser" then GetUser p
     else if op_is operation "CreateUser" then CreateUser p
     else if op_is operation "UpdateUser" then UpdateUser p
     else if op_is operation "DeleteUser" then DeleteUser p
     else ret unknown_operation_body) ;;
  let soap_response := create_soap_response response_body in
  ret (FastAPIResponse soap_response "text/xml").

(** The handler with its first two lines, [request.body()] and
    [body.decode('utf-8')]. [None] is a body that decodes to a text with a
    code point above 255. *)
Definition soap_endpoint_of_body (body : list Byte.byte) : option (M Response) :=
  match Utf8.decode body with
  | Raise e => Some (lift (Raise e))
  | Ok cps => option_map soap_endpoint (Utf8.narrow cps)
  end.

(** What the client sees: an exception that leaves the handler is answered by
    the framework with 500 Internal Server Error. *)
Definition http_status (r : result Response) : Z :=
  match r with
  | Ok resp => status_code resp
  | Raise _ => 500
  end.

(** Requests handled one after the other on the same data file. *)
Fixpoint serve (requests : list string) (f : file_state) : list (result Response) * file_state :=
  match requests with
  | [] => ([], f)
  | r :: rest =>
      let (out, f') := soap_endpoint r f in
      let (outs, f'') := serve rest f' in
      (out :: outs, f'')
  end.


(** ** Vocabulary of the statements *)

(** The interpreter reads [s] as operation [op] with parameters [p]. *)
Definition request (op : string) (p : params) (s : string) : Prop :=
  parse_soap_request s = Ok (Some (op, p)).

(** The response the handler builds around a fragment. *)
Definition envelope (body : string) : Response :=
  FastAPIResponse (create_soap_response body) "text/xml".

(** A text that is a number for [\d+]: one decimal digit or more. *)
Definition numeric (v : string) : bool :=
  (negb (String.eqb v EmptyString) && all isdecimal v)%bool.

Definition open_tag (tag : string) : string := "<" +++ tag +++ ">".
Definition close_tag (tag : string) : string := "</" +++ tag +++ ">".

(** The text that follows the first occurrence of [sub] in [s]. *)
Fixpoint after_first (sub s : string) : option string :=
  match Re.skip sub s with
  | Some r => Some r
  | None =>
      match s with
      | EmptyString => None
      | String _ s' => after_first sub s'
      end
  end.

(** The text that precedes the first occurrence of [sub] in [s]. *)
Fixpoint before_first (sub s : string) : option string :=
  if startswith sub s then Some EmptyString
  else match s with
       | EmptyString => None
       | String c s' => option_map (String c) (before_first sub s')
       end.

(** The value inside the first [<tag>] of the payload: what stands between
    the first opening tag and the closing tag that follows it. *)
Definition first_value (tag s : string) : option string :=
  match after_first (open_tag tag) s with
  | Some r => before_first (close_tag tag) r
  | None => None
  end.

(** Some [<tag>] element of the payload holds [v]. *)
Definition holds (tag v s : string) : Prop :=
  exists a b, s = a +++ open_tag tag +++ v +++ close_tag tag +++ b.

(** No [<tag>] element of the payload holds a number. *)
Definition no_number (tag s : string) : Prop :=
  forall v, holds tag v s -> numeric v = false.

(** The handler's last two lines around an operation. *)
Definition respond (m : M string) : M Response :=
  response_body <~ m ;;
  ret (envelope response_body).

(** [m] is in [l] and nothing in [l] is larger. *)
Definition is_max (m : Z) (l : list Z) : Prop :=
  In m l /\ forall x, In x l -> x <= m.

(** [n] is one more than the largest id among [users], or 1 when there is no
    user. *)
Definition next_after (users : list User) (n : Z) : Prop :=
  (users = [] /\ n = 1) \/ (exists m, is_max m (map id users) /\ n = m + 1).


(** The ids of the stored collection are pairwise distinct. *)
Definition unique_ids (f : file_state) : Prop :=
  match f with
  | Stored users => NoDup (map id users)
  | _ => True
  end.

(** The data file loads to a list of users. *)
Definition loads (f : file_state) : bool :=
  match f with
  | Stored _ => true
  | _ => false
  end.

(** The five operations; each of them starts by reading the data file. *)
Definition reads_store (op : string) : bool :=
  (String.eqb op "GetAllUsers" || String.eqb op "GetUser" || String.eqb op "CreateUser"
   || String.eqb op "UpdateUser" || String.eqb op "DeleteUser")%bool.

(** The pattern finds a number of more digits than [int] takes. *)
Definition oversized (p : Re.pattern) (s : string) : bool :=
  match Re.search p s with
  | Some g => Nat.ltb max_str_digits (String.length g)
  | None => false
  end.

Definition found (p : Re.pattern) (s : string) : bool :=
  match Re.search p s with
  | Some _ => true
  | None => false
  end.



(** Some element [tag] of the payload holds a number of too many digits. *)
Definition too_long (tag s : string) : Prop :=
  exists v, holds tag v s /\ numeric v = true /\
            (max_str_digits < String.length v)%nat.

(** A text for [[^<]+]: not empty, no opening angle bracket. *)
Definition plain (v : string) : bool :=
  (negb (String.eqb v EmptyString) && all notlt v)%bool.

(** No [<tag>] element of the payload holds such a text. *)
Definition no_text (tag s : string) : Prop :=
  forall v, holds tag v s -> plain v = false.

(** The response is a 200 whose content has the four elements of [u]. *)
Definition shows (u : User) (r : Response) : Prop :=
  status_code r = 200 /\
  contains ("<id>" +++ str_of_int (id u) +++ "</id>") (content r) = true /\
  contains ("<name>" +++ name u +++ "</name>") (content r) = true /\
  contains ("<email>" +++ email u +++ "</email>") (content r) = true /\
  contains ("<age>" +++ str_of_int (age u) +++ "</age>") (content r) = true.

(** A text that is a name for [\w+]: one word character or more. *)
Definition word (w : string) : bool :=
  (negb (String.eqb w EmptyString) && all isword w)%bool.

(** The payload has, after [a], an opening angle bracket, [w] and Request. *)
Definition names_at (a w s : string) : Prop :=
  exists b, s = a +++ "<" +++ w +++ "Request" +++ b.

(** Every stored id is positive. *)
Definition ids_positive (f : file_state) : Prop :=
  match f with
  | Stored users => Forall (fun u => 0 < id u) users
  | _ => True
  end.

(** What a request makes of a collection that loads: the list written back,
    or the list read when the request writes nothing. *)
Definition collection_after (op : string) (p : params) (users : list User) : list User :=
  if String.eqb op "CreateUser" then
    match User_new (new_id users) (str_of_opt (p_name p)) (p_email p) (p_age p) with
    | Ok new_user => users ++ [new_user]
    | Raise _ => users
    end
  else if String.eqb op "UpdateUser" then
    match update_loop (p_id p) p users with
    | Some (users', _) => users'
    | None => users
    end
  else if String.eqb op "DeleteUser" then
    filter (fun u => negb (id_is (p_id p) u)) users
  else users.

(** The number a run of decimal digits denotes after the digits read so far. *)
Fixpoint uint_value (d : Decimal.uint) (acc : Z) : Z :=
  match d with
  | Decimal.Nil => acc
  | Decimal.D0 l => uint_value l (10 * acc + 0)
  | Decimal.D1 l => uint_value l (10 * acc + 1)
  | Decimal.D2 l => uint_value l (10 * acc + 2)
  | Decimal.D3 l => uint_value l (10 * acc + 3)
  | Decimal.D4 l => uint_value l (10 * acc + 4)
  | Decimal.D5 l => uint_value l (10 * acc + 5)
  | Decimal.D6 l => uint_value l (10 * acc + 6)
  | Decimal.D7 l => uint_value l (10 * acc + 7)
  | Decimal.D8 l => uint_value l (10 * acc + 8)
  | Decimal.D9 l => uint_value l (10 * acc + 9)
  end.

(** An UpdateUser request whose payload is a record as [user_to_xml] writes
    it, with [I], [N], [E] and [A] in the four elements. *)
Definition echo (I N E A : string) : string :=
  "<UpdateUserRequest>" +++ "<User>" +++ nl +++
  "    <id>" +++ I +++ "</id>" +++ nl +++
  "    <name>" +++ N +++ "</name>" +++ nl +++
  "    <email>" +++ E +++ "</email>" +++ nl +++
  "    <age>" +++ A +++ "</age>" +++ nl +++
  "</User>" +++ "</UpdateUserRequest>".

(** The text of the number has no more digits than [int] takes back. *)
Definition short (n : Z) : bool :=
  Nat.leb (String.length (str_of_int n)) max_str_digits.

(** A record as the service makes them: id and age not negative, name and
    email not empty and without an opening angle bracket. *)
Definition well_formed (u : User) : Prop :=
  0 <= id u /\ 0 <= age u /\
  name u <> EmptyString /\ all notlt (name u) = true /\
  email u <> EmptyString /\ all notlt (email u) = true.

Definition records_well_formed (f : file_state) : Prop :=
  match f with
  | Stored users => Forall well_formed users
  | _ => True
  end.

(** The same of the values in params. *)
Definition params_ok (p : params) : Prop :=
  (forall n, p_id p = Some n -> 0 <= n) /\
  (forall n, p_age p = Some n -> 0 <= n) /\
  (forall v, p_name p = Some v -> v <> EmptyString /\ all notlt v = true) /\
  (forall v, p_email p = Some v -> v <> EmptyString /\ all notlt v = true).

(** ** Text and pattern lemmas *)

Lemma append_assoc (a b c : string) : (a +++ b) +++ c = a +++ b +++ c.
Proof. induction a as [|x a IH]; simpl; [reflexivity | now rewrite IH]. Qed.

Lemma startswith_append (p r : string) : startswith p (p +++ r) = true.
Proof.
  induction p as [|x p IH]; simpl; [reflexivity |].
  now rewrite Ascii.eqb_refl, IH.
Qed.

Lemma skip_append (p r : string) : Re.skip p (p +++ r) = Some r.
Proof.
  induction p as [|x p IH]; simpl; [reflexivity |].
  now rewrite Ascii.eqb_refl.
Qed.

Lemma skip_inv (p s r : string) : Re.skip p s = Some r -> s = p +++ r.
Proof.
  revert s; induction p as [|x p IH]; intros s H; simpl in *.
  - now inversion H.
  - destruct s as [|y s]; [discriminate |].
    destruct (Ascii.eqb x y) eqn:E; [| discriminate].
    apply Ascii.eqb_eq in E; subst y. now rewrite (IH s H).
Qed.

Lemma startswith_inv (p s : string) : startswith p s = true -> exists r, s = p +++ r.
Proof.
  revert s; induction p as [|x p IH]; intros s H; simpl in *.
  - now exists s.
  - destruct s as [|y s]; [discriminate |].
    apply andb_prop in H as [E H]. apply Ascii.eqb_eq in E; subst y.
    destruct (IH s H) as [r ->]. now exists r.
Qed.

Lemma group_sound (c : ascii -> bool) (aft s g : string) :
  Re.group c aft s = Some g ->
  g <> EmptyString /\ all c g = true /\ exists r, s = g +++ aft +++ r.
Proof.
  revert g; induction s as [|x s IH]; intros g H; simpl in H; [discriminate |].
  destruct (c x) eqn:Cx; [| discriminate].
  destruct (Re.group c aft s) as [g' |] eqn:G.
  - inversion H; subst g; clear H.
    destruct (IH g' eq_refl) as (_ & A & r & ->).
    repeat split; [discriminate | simpl; now rewrite Cx | now exists r].
  - destruct (startswith aft s) eqn:P; [| discriminate].
    inversion H; subst g; clear H.
    destruct (startswith_inv _ _ P) as [r ->].
    repeat split; [discriminate | simpl; now rewrite Cx | now exists r].
Qed.

Lemma group_complete (c : ascii -> bool) (aft g r : string) :
  g <> EmptyString -> all c g = true -> Re.group c aft (g +++ aft +++ r) <> None.
Proof.
  induction g as [|x g IH]; intros Hne A; [congruence |].
  simpl in A. apply andb_prop in A as [Cx A]. simpl. rewrite Cx.
  destruct g as [|y g].
  - simpl. destruct (Re.group c aft (aft +++ r)); [discriminate |].
    now rewrite startswith_append.
  - pose proof (IH ltac:(discriminate) A) as K.
    destruct (Re.group c aft (String y g +++ aft +++ r)); [discriminate | congruence].
Qed.

Lemma search_eq (p : Re.pattern) (s : string) :
  Re.search p s =
  match Re.match_here p s with
  | Some g => Some g
  | None => match s with
            | EmptyString => None
            | String _ s' => Re.search p s'
            end
  end.
Proof. destruct s; reflexivity. Qed.

Lemma match_here_sound (p : Re.pattern) (s g : string) :
  Re.match_here p s = Some g ->
  g <> EmptyString /\ all (Re.cls p) g = true /\
  exists b, s = Re.before p +++ g +++ Re.after p +++ b.
Proof.
  unfold Re.match_here. destruct (Re.skip (Re.before p) s) as [rest |] eqn:K; [| discriminate].
  intros G. apply group_sound in G as (Hne & A & r & ->).
  apply skip_inv in K. subst s. repeat split; trivial. now exists r.
Qed.

Lemma search_sound (p : Re.pattern) (s g : string) :
  Re.search p s = Some g ->
  g <> EmptyString /\ all (Re.cls p) g = true /\
  exists a b, s = a +++ Re.before p +++ g +++ Re.after p +++ b.
Proof.
  induction s as [|x s IH]; rewrite search_eq.
  - destruct (Re.match_here p EmptyString) eqn:Mh; [| discriminate].
    intros H; inversion H; subst; clear H.
    apply match_here_sound in Mh as (Hne & A & b & E).
    repeat split; trivial. exists EmptyString, b. exact E.
  - destruct (Re.match_here p (String x s)) eqn:Mh.
    + intros H; inversion H; subst; clear H.
      apply match_here_sound in Mh as (Hne & A & b & E).
      repeat split; trivial. exists EmptyString, b. exact E.
    + intros H. destruct (IH H) as (Hne & A & a & b & ->).
      repeat split; trivial. now exists (String x a), b.
Qed.

Lemma search_complete (p : Re.pattern) (a g b : string) :
  g <> EmptyString -> all (Re.cls p) g = true ->
  Re.search p (a +++ Re.before p +++ g +++ Re.after p +++ b) <> None.
Proof.
  intros Hne A. induction a as [|x a IH]; rewrite search_eq.
  - simpl. unfold Re.match_here. rewrite skip_append.
    destruct (Re.group (Re.cls p) (Re.after p) (g +++ Re.after p +++ b)) eqn:G; [discriminate |].
    exfalso. now apply (group_complete (Re.cls p) (Re.after p) g b).
  - destruct (Re.match_here p (String x a +++ _)); [discriminate |].
    simpl. exact IH.
Qed.

Lemma contains_append (a sub b : string) : contains sub (a +++ sub +++ b) = true.
Proof.
  induction a as [|x a IH].
  - simpl. destruct (sub +++ b) eqn:E; simpl; rewrite <- E, startswith_append; reflexivity.
  - simpl. rewrite IH. apply orb_true_r.
Qed.

Lemma contains_tag (tag a r : string) : contains (tag +++ ">") (a +++ open_tag tag +++ r) = true.
Proof.
  unfold open_tag. change ("<" +++ tag +++ ">") with (String "<" (tag +++ ">")).
  replace (a +++ String "<" (tag +++ ">") +++ r) with ((a +++ "<") +++ (tag +++ ">") +++ r).
  - apply contains_append.
  - rewrite !append_assoc. simpl. now rewrite ?append_assoc.
Qed.

Lemma int_digits_total (g : string) (acc : Z) :
  all isdecimal g = true -> exists n, int_digits acc g = Ok n.
Proof.
  revert acc; induction g as [|x g IH]; intros acc A; simpl in *.
  - now exists acc.
  - apply andb_prop in A as [Dx A]. rewrite Dx. now apply IH.
Qed.

Lemma int_of_str_short (g : string) :
  g <> EmptyString -> all isdecimal g = true ->
  (String.length g <= max_str_digits)%nat ->
  exists n, int_of_str g = Ok n.
Proof.
  intros Hne A L. destruct g as [|c g]; [congruence |].
  unfold int_of_str.
  destruct (Nat.ltb_spec max_str_digits (String.length (String c g))) as [K | _]; [lia |].
  now apply int_digits_total.
Qed.

Lemma int_of_str_long (g : string) :
  (max_str_digits < String.length g)%nat -> int_of_str g = Raise ValueError.
Proof.
  intros L. destruct g as [|c g]; [reflexivity |].
  unfold int_of_str.
  destruct (Nat.ltb_spec max_str_digits (String.length (String c g))) as [_ | K]; [reflexivity | lia].
Qed.

Lemma int_of_str_ok (g : string) (n : Z) :
  int_of_str g = Ok n ->
  (String.length g <= max_str_digits)%nat /\ int_digits 0 g = Ok n.
Proof.
  destruct g as [|c g]; [discriminate |]. unfold int_of_str.
  destruct (Nat.ltb_spec max_str_digits (String.length (String c g))) as [_ | K];
    [discriminate | now split].
Qed.

Lemma numeric_true (v : string) :
  numeric v = true <-> v <> EmptyString /\ all isdecimal v = true.
Proof.
  unfold numeric. rewrite andb_true_iff, negb_true_iff, String.eqb_neq. tauto.
Qed.

Lemma search_contains (tag : string) (c : ascii -> bool) (s g : string) :
  Re.search (Re.mkPattern (open_tag tag) c (close_tag tag)) s = Some g ->
  contains (tag +++ ">") s = true.
Proof.
  intros H. destruct (search_sound _ _ _ H) as (_ & _ & a & b & E).
  rewrite E. apply contains_tag.
Qed.

(** The test that goes before each search never decides. *)
Lemma int_field_search (tag s : string) :
  int_field (tag +++ ">") (Re.mkPattern (open_tag tag) isdecimal (close_tag tag)) s =
  match Re.search (Re.mkPattern (open_tag tag) isdecimal (close_tag tag)) s with
  | Some g => n <- int_of_str g ;; Ok (Some n)
  | None => Ok None
  end.
Proof.
  unfold int_field.
  destruct (Re.search _ s) as [g |] eqn:S.
  - now rewrite (search_contains _ _ _ _ S).
  - now destruct (contains (tag +++ ">") s).
Qed.

Lemma text_field_search (tag s : string) :
  text_field (tag +++ ">") (Re.mkPattern (open_tag tag) notlt (close_tag tag)) s =
  Re.search (Re.mkPattern (open_tag tag) notlt (close_tag tag)) s.
Proof.
  unfold text_field.
  destruct (Re.search _ s) as [g |] eqn:S.
  - now rewrite (search_contains _ _ _ _ S).
  - now destruct (contains (tag +++ ">") s).
Qed.

Lemma search_none_no_number (tag s : string) :
  Re.search (Re.mkPattern (open_tag tag) isdecimal (close_tag tag)) s = None <->
  no_number tag s.
Proof.
  set (pat := Re.mkPattern (open_tag tag) isdecimal (close_tag tag)). split.
  - intros S v (a & b & E). destruct (numeric v) eqn:Nv; [| reflexivity].
    apply numeric_true in Nv as [Hne A]. exfalso.
    apply (search_complete pat a v b Hne A). subst s. exact S.
  - intros N. destruct (Re.search pat s) as [g |] eqn:S; [| reflexivity].
    destruct (search_sound _ _ _ S) as (Hne & A & a & b & E). simpl in A, E.
    assert (Ng : numeric g = true) by (apply numeric_true; auto).
    rewrite (N g (ex_intro _ a (ex_intro _ b E))) in Ng. discriminate.
Qed.

Lemma search_some_number (tag s g : string) :
  Re.search (Re.mkPattern (open_tag tag) isdecimal (close_tag tag)) s = Some g ->
  holds tag g s /\ numeric g = true.
Proof.
  intros S. destruct (search_sound _ _ _ S) as (Hne & A & a & b & E). simpl in A, E.
  split; [now exists a, b | apply numeric_true; auto].
Qed.

(** A field read with [int]: when the field is read, it is left out exactly
    when no element holds a number, and is otherwise the number one of them
    holds. *)
Lemma int_field_ok (tag s : string) (v : option Z) :
  int_field (tag +++ ">") (Re.mkPattern (open_tag tag) isdecimal (close_tag tag)) s = Ok v ->
  (v = None <-> no_number tag s) /\
  (forall n, v = Some n ->
             exists g, holds tag g s /\ numeric g = true /\ int_of_str g = Ok n).
Proof.
  rewrite int_field_search. pose proof (search_none_no_number tag s) as N.
  destruct (Re.search _ s) as [g |] eqn:S.
  - destruct (search_some_number tag s g S) as [Hg Ng].
    destruct (int_of_str g) as [n |] eqn:V; [| discriminate].
    simpl. intros H; inversion H; subst v; clear H. split.
    + split; [discriminate |]. intros K. apply N in K. discriminate.
    + intros m Em. inversion Em; subst m. now exists g.
  - intros H; inversion H; subst v; clear H. split; [| discriminate].
    split; [intros _; now apply N | reflexivity].
Qed.

(** The only error of such a field is a number of too many digits. *)
Lemma int_field_raise (tag s : string) (e : exn) :
  int_field (tag +++ ">") (Re.mkPattern (open_tag tag) isdecimal (close_tag tag)) s = Raise e <->
  e = ValueError /\
  oversized (Re.mkPattern (open_tag tag) isdecimal (close_tag tag)) s = true.
Proof.
  rewrite int_field_search. unfold oversized.
  destruct (Re.search _ s) as [g |] eqn:S.
  - destruct (search_sound _ _ _ S) as (Hne & A & _). simpl in A.
    destruct (Nat.ltb_spec max_str_digits (String.length g)) as [L | L].
    + rewrite (int_of_str_long g L). simpl. split; [intros H; inversion H; auto |].
      now intros [-> _].
    + destruct (int_of_str_short g Hne A L) as [n ->]. simpl.
      split; [discriminate | intros [_ K]; discriminate].
  - split; [discriminate | intros [_ K]; discriminate].
Qed.

Lemma oversized_too_long (tag s : string) :
  oversized (Re.mkPattern (open_tag tag) isdecimal (close_tag tag)) s = true ->
  too_long tag s.
Proof.
  unfold oversized. destruct (Re.search _ s) as [g |] eqn:S; [| discriminate].
  intros L. apply Nat.ltb_lt in L.
  destruct (search_some_number tag s g S) as [Hg Ng]. now exists g.
Qed.

Lemma parse_raise (s : string) (e : exn) :
  parse_soap_request s = Raise e <->
  e = ValueError /\ Re.search operation_re s <> None /\
  (oversized id_re s || oversized age_re s)%bool = true.
Proof.
  unfold parse_soap_request.
  assert (Ri : forall x, int_field "id>" id_re s = Raise x <->
                         x = ValueError /\ oversized id_re s = true)
    by (intros x; exact (int_field_raise "id" s x)).
  assert (Ra : forall x, int_field "age>" age_re s = Raise x <->
                         x = ValueError /\ oversized age_re s = true)
    by (intros x; exact (int_field_raise "age" s x)).
  destruct (Re.search operation_re s) as [op |];
    [| split; [discriminate | intros (_ & K & _); congruence]].
  destruct (int_field "id>" id_re s) as [i | ei] eqn:Fi; simpl.
  - assert (Oi : oversized id_re s = false).
    { destruct (oversized id_re s) eqn:O; [| reflexivity].
      pose proof (proj2 (Ri ValueError) (conj eq_refl eq_refl)). discriminate. }
    rewrite Oi. simpl.
    destruct (int_field "age>" age_re s) as [a | ea] eqn:Fa; simpl.
    + split; [discriminate |]. intros (_ & _ & O).
      pose proof (proj2 (Ra ValueError) (conj eq_refl O)). discriminate.
    + destruct (proj1 (Ra ea) eq_refl) as [-> O]. rewrite O.
      split; [intros H; inversion H; repeat split; discriminate | now intros (-> & _)].
  - destruct (proj1 (Ri ei) eq_refl) as [-> O]. rewrite O. simpl.
    split; [intros H; inversion H; repeat split; discriminate | now intros (-> & _)].
Qed.

(** An error of the interpreter leaves the handler as it is. *)
Lemma endpoint_parse_raise (s : string) (f : file_state) (e : exn) :
  parse_soap_request s = Raise e -> soap_endpoint s f = (Raise e, f).
Proof. intros H. unfold soap_endpoint, bind, lift. now rewrite H. Qed.

(** ** Lemmas on the collection *)

Lemma fold_max_spec (xs : list Z) (x : Z) :
  let m := fold_left Z.max xs x in
  x <= m /\ (forall y, In y xs -> y <= m) /\ (m = x \/ In m xs).
Proof.
  revert x; induction xs as [|y xs IH]; intros x; simpl.
  - repeat split; [lia | tauto | now left].
  - destruct (IH (Z.max x y)) as (A & B & C).
    repeat split.
    + lia.
    + intros z [-> | Hz]; [lia | now apply B].
    + destruct C as [C | C]; [| now right; right].
      rewrite C. destruct (Z.max_spec x y) as [[_ ->] | [_ ->]]; [right; now left | now left].
Qed.

Lemma max_default_is_max (l : list Z) (d : Z) :
  l <> [] -> is_max (max_default l d) l.
Proof.
  destruct l as [|x xs]; [congruence | intros _].
  destruct (fold_max_spec xs x) as (A & B & C). simpl.
  split.
  - destruct C as [-> | C]; [now left | now right].
  - intros y [<- | Hy]; [exact A | now apply B].
Qed.

Lemma new_id_next (users : list User) : next_after users (new_id users).
Proof.
  destruct users as [|u users]; [now left | right].
  exists (max_default (map id (u :: users)) 0). split; [| reflexivity].
  apply max_default_is_max. discriminate.
Qed.

Lemma next_after_above (users : list User) (n : Z) (u : User) :
  next_after users n -> In u users -> id u < n.
Proof.
  intros [[-> _] | (m & [_ Hm] & ->)] Hu; [contradiction |].
  assert (id u <= m) by (apply Hm; now apply in_map). lia.
Qed.

Lemma assign_id (p : params) (u : User) : id (assign p u) = id u.
Proof. unfold assign. destruct (p_name p), (p_email p), (p_age p); reflexivity. Qed.


Lemma update_loop_first (k : option Z) (p : params) (l1 l2 : list User) (u : User) :
  (forall v, In v l1 -> id_is k v = false) -> id_is k u = true ->
  update_loop k p (l1 ++ u :: l2) = Some (l1 ++ assign p u :: l2, assign p u).
Proof.
  intros H1 Hu. induction l1 as [|v l1 IH]; simpl.
  - now rewrite Hu.
  - rewrite (H1 v (or_introl eq_refl)), IH; [reflexivity |].
    intros w Hw. apply H1. now right.
Qed.

Lemma update_loop_ids (k : option Z) (p : params) (users users' : list User) (w : User) :
  update_loop k p users = Some (users', w) -> map id users' = map id users.
Proof.
  revert users'; induction users as [|u users IH]; intros users' H; simpl in H; [discriminate |].
  destruct (id_is k u).
  - inversion H; subst. simpl. now rewrite assign_id.
  - destruct (update_loop k p users) as [[rest' w'] |]; [| discriminate].
    inversion H; subst. simpl. now rewrite (IH rest' eq_refl).
Qed.

Lemma first_match_split (k : option Z) (users : list User) :
  (exists v, In v users /\ id_is k v = true) ->
  exists l1 u l2, users = l1 ++ u :: l2 /\ id_is k u = true /\
                  forall v, In v l1 -> id_is k v = false.
Proof.
  induction users as [|x users IH]; intros (v & Hv & E); [contradiction |].
  destruct (id_is k x) eqn:Ex.
  - exists [], x, users. repeat split; trivial. intros w [].
  - destruct IH as (l1 & u & l2 & -> & Eu & H1).
    + destruct Hv as [-> | Hv]; [congruence | now exists v].
    + exists (x :: l1), u, l2. repeat split; trivial.
      intros w [<- | Hw]; [exact Ex | now apply H1].
Qed.

Lemma NoDup_map_filter {A B} (f : A -> B) (g : A -> bool) (l : list A) :
  NoDup (map f l) -> NoDup (map f (filter g l)).
Proof.
  induction l as [|x l IH]; simpl; intros H; [constructor |].
  inversion H as [| ? ? Hx Hl]; subst.
  destruct (g x); [| now apply IH].
  simpl. constructor; [| now apply IH].
  intros K. apply Hx. apply in_map_iff in K as (y & E & Hy).
  apply filter_In in Hy as [Hy _]. rewrite <- E. now apply in_map.
Qed.

Lemma NoDup_ids_snoc (users : list User) (u : User) :
  NoDup (map id users) -> (forall v, In v users -> id v < id u) ->
  NoDup (map id (users ++ [u])).
Proof.
  intros H Hu. rewrite map_app. simpl.
  apply NoDup_app; [exact H | constructor; [intros [] | constructor] |].
  intros x Hx [<- | []]. apply in_map_iff in Hx as (v & E & Hv).
  specialize (Hu v Hv). lia.
Qed.


(** ** The handler, operation by operation *)

Lemma endpoint_request (op : string) (p : params) (s : string) (f : file_state) :
  request op p s ->
  soap_endpoint s f =
  respond (if String.eqb op "GetAllUsers" then GetAllUsers
           else if String.eqb op "GetUser" then GetUser p
           else if String.eqb op "CreateUser" then CreateUser p
           else if String.eqb op "UpdateUser" then UpdateUser p
           else if String.eqb op "DeleteUser" then DeleteUser p
           else ret unknown_operation_body) f.
Proof. intros H. unfold soap_endpoint, respond, bind, lift. now rewrite H. Qed.

Lemma endpoint_unrecognised (s : string) (f : file_state) :
  parse_soap_request s = Ok None ->
  soap_endpoint s f = (Ok (envelope unknown_operation_body), f).
Proof. intros H. unfold soap_endpoint, bind, lift. now rewrite H. Qed.



Lemma endpoint_get (s : string) (p : params) (users : list User) :
  request "GetUser" p s ->
  soap_endpoint s (Stored users) =
  (Ok (envelope match find (id_is (p_id p)) users with
                | Some user => user_body user
                | None => user_not_found_body
                end), Stored users).
Proof.
  intros H. rewrite (endpoint_request _ _ _ _ H). simpl.
  unfold respond, GetUser, bind, read_users, ret.
  now destruct (find (id_is (p_id p)) users).
Qed.

Lemma endpoint_update (s : string) (p : params) (users : list User) :
  request "UpdateUser" p s ->
  soap_endpoint s (Stored users) =
  match update_loop (p_id p) p users with
  | Some (users', updated_user) => (Ok (envelope (updated_body updated_user)), Stored users')
  | None => (Ok (envelope update_not_found_body), Stored users)
  end.
Proof.
  intros H. rewrite (endpoint_request _ _ _ _ H). simpl.
  unfold respond, UpdateUser, bind, read_users, write_users, ret.
  now destruct (update_loop (p_id p) p users) as [[users' w] |].
Qed.

Lemma endpoint_delete (s : string) (p : params) (users : list User) :
  request "DeleteUser" p s ->
  soap_endpoint s (Stored users) =
  (Ok (envelope deleted_body), Stored (filter (fun u => negb (id_is (p_id p) u)) users)).
Proof.
  intros H. now rewrite (endpoint_request _ _ _ _ H).
Qed.

(** ** What a response shows *)

Lemma contains_eq (sub s : string) :
  contains sub s =
  (startswith sub s || match s with
                       | EmptyString => false
                       | String _ s' => contains sub s'
                       end)%bool.
Proof. destruct s; reflexivity. Qed.

Lemma contains_inv (sub s : string) :
  contains sub s = true -> exists a b, s = a +++ sub +++ b.
Proof.
  induction s as [|c s IH]; rewrite contains_eq; intros H;
    apply orb_prop in H as [H | H].
  - apply startswith_inv in H as [r E]. now exists EmptyString, r.
  - discriminate.
  - apply startswith_inv in H as [r E]. now exists EmptyString, r.
  - destruct (IH H) as (a & b & ->). now exists (String c a), b.
Qed.

Lemma contains_wrap (sub a s b : string) :
  contains sub s = true -> contains sub (a +++ s +++ b) = true.
Proof.
  intros H. apply contains_inv in H as (x & y & ->).
  replace (a +++ (x +++ sub +++ y) +++ b) with ((a +++ x) +++ sub +++ (y +++ b))
    by now rewrite !append_assoc.
  apply contains_append.
Qed.

Lemma user_to_xml_fields (u : User) :
  contains ("<id>" +++ str_of_int (id u) +++ "</id>") (user_to_xml u) = true /\
  contains ("<name>" +++ name u +++ "</name>") (user_to_xml u) = true /\
  contains ("<email>" +++ email u +++ "</email>") (user_to_xml u) = true /\
  contains ("<age>" +++ str_of_int (age u) +++ "</age>") (user_to_xml u) = true.
Proof.
  unfold user_to_xml. repeat split.
  - replace (_ +++ nl +++ "    <id>" +++ _)
      with (("<User>" +++ nl +++ "    ") +++ ("<id>" +++ str_of_int (id u) +++ "</id>") +++
            (nl +++ "    <name>" +++ name u +++ "</name>" +++ nl +++
             "    <email>" +++ email u +++ "</email>" +++ nl +++
             "    <age>" +++ str_of_int (age u) +++ "</age>" +++ nl +++ "</User>"))
      by now rewrite !append_assoc.
    apply contains_append.
  - replace (_ +++ nl +++ "    <id>" +++ _)
      with (("<User>" +++ nl +++ "    <id>" +++ str_of_int (id u) +++ "</id>" +++ nl +++ "    ") +++
            ("<name>" +++ name u +++ "</name>") +++
            (nl +++ "    <email>" +++ email u +++ "</email>" +++ nl +++
             "    <age>" +++ str_of_int (age u) +++ "</age>" +++ nl +++ "</User>"))
      by now rewrite !append_assoc.
    apply contains_append.
  - replace (_ +++ nl +++ "    <id>" +++ _)
      with (("<User>" +++ nl +++ "    <id>" +++ str_of_int (id u) +++ "</id>" +++ nl +++
             "    <name>" +++ name u +++ "</name>" +++ nl +++ "    ") +++
            ("<email>" +++ email u +++ "</email>") +++
            (nl +++ "    <age>" +++ str_of_int (age u) +++ "</age>" +++ nl +++ "</User>"))
      by now rewrite !append_assoc.
    apply contains_append.
  - replace (_ +++ nl +++ "    <id>" +++ _)
      with (("<User>" +++ nl +++ "    <id>" +++ str_of_int (id u) +++ "</id>" +++ nl +++
             "    <name>" +++ name u +++ "</name>" +++ nl +++
             "    <email>" +++ email u +++ "</email>" +++ nl +++ "    ") +++
            ("<age>" +++ str_of_int (age u) +++ "</age>") +++ (nl +++ "</User>"))
      by now rewrite !append_assoc.
    apply contains_append.
Qed.

(** A response built around a fragment that holds the rendering of [u]. *)
Lemma shows_around (u : User) (a b : string) :
  shows u (envelope (a +++ user_to_xml u +++ b)).
Proof.
  destruct (user_to_xml_fields u) as (Fi & Fn & Fe & Fa).
  unfold shows, envelope, FastAPIResponse, create_soap_response. cbn [status_code content].
  split; [reflexivity |].
  repeat split;
    (match goal with
     | |- contains ?x (?p0 +++ _) = true =>
         replace (p0 +++ quot +++ "1-0" +++ quot +++ " encoding=" +++ quot +++ "UTF-8" +++
                  quot +++ "?>" +++ nl +++ "<soap:Envelope xmlns:soap=" +++ quot +++
                  "http://schemas.xmlsoap.org/soap/envelope/" +++ quot +++ ">" +++ nl +++
                  "    <soap:Body>" +++ nl +++ "        " +++
                  (a +++ user_to_xml u +++ b) +++ nl +++ "    </soap:Body>" +++ nl +++
                  "</soap:Envelope>")
           with ((p0 +++ quot +++ "1-0" +++ quot +++ " encoding=" +++ quot +++ "UTF-8" +++
                  quot +++ "?>" +++ nl +++ "<soap:Envelope xmlns:soap=" +++ quot +++
                  "http://schemas.xmlsoap.org/soap/envelope/" +++ quot +++ ">" +++ nl +++
                  "    <soap:Body>" +++ nl +++ "        " +++ a) +++
                 user_to_xml u +++
                 (b +++ nl +++ "    </soap:Body>" +++ nl +++ "</soap:Envelope>"))
           by now rewrite !append_assoc
     end; now apply contains_wrap).
Qed.

Lemma shows_user_body (u : User) : shows u (envelope (user_body u)).
Proof.
  exact (shows_around u ("<GetUserResponse>" +++ nl +++ "        ")
                      (nl +++ "    </GetUserResponse>")).
Qed.


Lemma shows_updated_body (u : User) : shows u (envelope (updated_body u)).
Proof.
  exact (shows_around u ("<UpdateUserResponse>" +++ nl +++
                         "        <success>true</success>" +++ nl +++
                         "        <message>User updated successfully</message>" +++ nl +++
                         "        ")
                      (nl +++ "    </UpdateUserResponse>")).
Qed.

(** ** Properties of the service *)



(** C2. Whatever the request, if the ids of the stored collection are pairwise
    distinct before it is handled, they are pairwise distinct afterwards. *)
Theorem ids_stay_unique (s : string) (f : file_state) :
  unique_ids f -> unique_ids (snd (soap_endpoint s f)).
Proof.
  intros U. destruct (parse_soap_request s) as [[[op p] |] | e] eqn:Hr;
    [| | now rewrite (endpoint_parse_raise s f e Hr)].
  - rewrite (endpoint_request op p s f Hr). unfold respond, bind.
    destruct (String.eqb op "GetAllUsers"); [destruct f; exact U |].
    destruct (String.eqb op "GetUser").
    { unfold GetUser, bind, read_users.
      destruct f as [| | users]; trivial.
      destruct (find (id_is (p_id p)) users); exact U. }
    destruct (String.eqb op "CreateUser").
    { unfold CreateUser, bind, read_users, lift, User_new.
      destruct f as [| | users]; trivial.
      destruct (p_email p) as [e |]; [| exact U].
      destruct (p_age p) as [a |]; [| exact U].
      simpl. apply NoDup_ids_snoc; [exact U |].
      intros v Hv. simpl. apply (next_after_above users); [apply new_id_next | exact Hv]. }
    destruct (String.eqb op "UpdateUser").
    { unfold UpdateUser, bind, read_users.
      destruct f as [| | users]; trivial.
      destruct (update_loop (p_id p) p users) as [[users' w] |] eqn:L; [| exact U].
      simpl. now rewrite (update_loop_ids _ _ _ _ _ L). }
    destruct (String.eqb op "DeleteUser"); [| exact U].
    unfold DeleteUser, bind, read_users.
    destruct f as [| | users]; trivial.
    simpl. now apply NoDup_map_filter.
  - now rewrite (endpoint_unrecognised s f Hr).
Qed.

Lemma ids_stay_unique_witness :
  unique_ids
    (snd (soap_endpoint
            "<CreateUserRequest><name>Ana</name><email>a@x.com</email><age>30</age></CreateUserRequest>"
            (Stored [mkUser 7 "Eva" "e@x.com" 41; mkUser 3 "Bo" "b@x.com" 52]))).
Proof.
  apply ids_stay_unique. simpl.
  constructor; [simpl; intros [H | []]; discriminate |].
  constructor; [intros [] | constructor].
Defined.




(** C4. An UpdateUser request whose id is the id of some stored record
    rewrites the first record with that id and no other: the records before
    and after it are kept as they are, its id is kept, and each of name, email
    and age is the supplied value when one is supplied and the old value
    otherwise. The response carries the updated record. *)
Theorem update_changes_supplied_fields
        (s : string) (p : params) (users : list User) (i : Z) :
  request "UpdateUser" p s -> p_id p = Some i ->
  (exists v, In v users /\ id v = i) ->
  exists l1 u l2,
    users = l1 ++ u :: l2 /\ id u = i /\ (forall v, In v l1 -> id v <> i) /\
    soap_endpoint s (Stored users) =
      (Ok (envelope (updated_body (assign p u))), Stored (l1 ++ assign p u :: l2)) /\
    id (assign p u) = id u /\
    name (assign p u) = match p_name p with Some n => n | None => name u end /\
    email (assign p u) = match p_email p with Some e => e | None => email u end /\
    age (assign p u) = match p_age p with Some a => a | None => age u end.
Proof.
  intros H Hi (v & Hv & Ev).
  destruct (first_match_split (p_id p) users) as (l1 & u & l2 & -> & Eu & H1).
  { exists v. split; [exact Hv |]. rewrite Hi. simpl. now apply Z.eqb_eq. }
  exists l1, u, l2.
  rewrite Hi in Eu. simpl in Eu. apply Z.eqb_eq in Eu.
  repeat split; trivial.
  - intros w Hw E. specialize (H1 w Hw). rewrite Hi in H1. simpl in H1.
    apply Z.eqb_neq in H1. contradiction.
  - rewrite (endpoint_update s p _ H), (update_loop_first (p_id p) p l1 l2 u H1); [reflexivity |].
    rewrite Hi. simpl. now apply Z.eqb_eq.
  - apply assign_id.
  - unfold assign. destruct (p_name p), (p_email p), (p_age p); reflexivity.
  - unfold assign. destruct (p_name p), (p_email p), (p_age p); reflexivity.
  - unfold assign. destruct (p_name p), (p_email p), (p_age p); reflexivity.
Qed.

Lemma update_changes_supplied_fields_witness :
  exists l1 u l2,
    [mkUser 1 "Ana" "a@x.com" 30; mkUser 2 "Leo" "l@x.com" 25; mkUser 2 "Bo" "b@x.com" 52] =
      l1 ++ u :: l2 /\ id u = 2 /\ (forall v, In v l1 -> id v <> 2) /\
    soap_endpoint "<UpdateUserRequest><id>2</id><name>Leon</name></UpdateUserRequest>"
      (Stored [mkUser 1 "Ana" "a@x.com" 30; mkUser 2 "Leo" "l@x.com" 25; mkUser 2 "Bo" "b@x.com" 52]) =
      (Ok (envelope (updated_body (assign (mkParams (Some 2) (Some "Leon") None None) u))),
       Stored (l1 ++ assign (mkParams (Some 2) (Some "Leon") None None) u :: l2)) /\
    id (assign (mkParams (Some 2) (Some "Leon") None None) u) = id u /\
    name (assign (mkParams (Some 2) (Some "Leon") None None) u) = "Leon" /\
    email (assign (mkParams (Some 2) (Some "Leon") None None) u) = email u /\
    age (assign (mkParams (Some 2) (Some "Leon") None None) u) = age u.
Proof.
  apply (update_changes_supplied_fields
           "<UpdateUserRequest><id>2</id><name>Leon</name></UpdateUserRequest>"
           (mkParams (Some 2) (Some "Leon") None None)
           [mkUser 1 "Ana" "a@x.com" 30; mkUser 2 "Leo" "l@x.com" 25; mkUser 2 "Bo" "b@x.com" 52]
           2).
  - reflexivity.
  - reflexivity.
  - exists (mkUser 2 "Leo" "l@x.com" 25). split; [right; now left | reflexivity].
Defined.

(** C5. A GetUser request whose id is the id of no stored record is answered,
    not refused: the handler returns the 200 response whose envelope holds the
    User-not-found fragment, and leaves the collection alone. In particular a
    GetUser that follows a DeleteUser for the same id gets that answer. *)
Theorem get_unknown_user_not_found (g : string) (pg : params) (users : list User) :
  request "GetUser" pg g ->
  ((forall u, In u users -> id_is (p_id pg) u = false) ->
   soap_endpoint g (Stored users) = (Ok (envelope user_not_found_body), Stored users)) /\
  (forall d pd, request "DeleteUser" pd d -> p_id pd = p_id pg ->
     serve [d; g] (Stored users) =
       ([Ok (envelope deleted_body); Ok (envelope user_not_found_body)],
        Stored (filter (fun u => negb (id_is (p_id pg) u)) users))) /\
  http_status (Ok (envelope user_not_found_body)) = 200 /\
  contains "<error>User not found</error>" (content (envelope user_not_found_body)) = true.
Proof.
  intros Hg.
  assert (NF : forall l, (forall u, In u l -> id_is (p_id pg) u = false) ->
                         soap_endpoint g (Stored l) = (Ok (envelope user_not_found_body), Stored l)).
  { intros l Hl. rewrite (endpoint_get g pg l Hg).
    destruct (find (id_is (p_id pg)) l) as [u |] eqn:F; [| reflexivity].
    apply find_some in F as [Hu E]. rewrite (Hl u Hu) in E. discriminate. }
  split; [apply NF |]. split; [| split; reflexivity].
  intros d pd Hd E. simpl.
  rewrite (endpoint_delete d pd users Hd), E, NF; [reflexivity |].
  intros u Hu. apply filter_In in Hu as [_ Hu]. now apply negb_true_iff in Hu.
Qed.

Lemma get_unknown_user_not_found_witness :
  soap_endpoint "<GetUserRequest><id>9</id></GetUserRequest>"
                (Stored [mkUser 1 "Ana" "a@x.com" 30; mkUser 2 "Leo" "l@x.com" 25]) =
    (Ok (envelope user_not_found_body),
     Stored [mkUser 1 "Ana" "a@x.com" 30; mkUser 2 "Leo" "l@x.com" 25]) /\
  serve ["<DeleteUserRequest><id>1</id></DeleteUserRequest>";
         "<GetUserRequest><id>1</id></GetUserRequest>"]
        (Stored [mkUser 1 "Ana" "a@x.com" 30; mkUser 2 "Leo" "l@x.com" 25]) =
    ([Ok (envelope deleted_body); Ok (envelope user_not_found_body)],
     Stored [mkUser 2 "Leo" "l@x.com" 25]).
Proof.
  split.
  - apply (get_unknown_user_not_found
             "<GetUserRequest><id>9</id></GetUserRequest>"
             (mkParams (Some 9) None None None)
             [mkUser 1 "Ana" "a@x.com" 30; mkUser 2 "Leo" "l@x.com" 25] eq_refl).
    intros u [<- | [<- | []]]; reflexivity.
  - apply (get_unknown_user_not_found
             "<GetUserRequest><id>1</id></GetUserRequest>"
             (mkParams (Some 1) None None None)
             [mkUser 1 "Ana" "a@x.com" 30; mkUser 2 "Leo" "l@x.com" 25] eq_refl)
      with (pd := mkParams (Some 1) None None None); reflexivity.
Defined.

(** C6. A DeleteUser request always reports success and always writes the
    collection back: what is written keeps, in order, exactly the records
    whose id is not the supplied one, so every record with that id is gone;
    when no record has that id the collection written is the one read. *)
Theorem delete_removes_and_succeeds (s : string) (p : params) (users : list User) :
  request "DeleteUser" p s ->
  exists users',
    soap_endpoint s (Stored users) = (Ok (envelope deleted_body), Stored users') /\
    users' = filter (fun u => negb (id_is (p_id p) u)) users /\
    (forall u, In u users' <-> In u users /\ id_is (p_id p) u = false) /\
    ((forall u, In u users -> id_is (p_id p) u = false) -> users' = users) /\
    http_status (Ok (envelope deleted_body)) = 200 /\
    contains "<success>true</success>" deleted_body = true.
Proof.
  intros H. exists (filter (fun u => negb (id_is (p_id p) u)) users).
  split; [exact (endpoint_delete s p users H) |]. split; [reflexivity |].
  split; [| split; [| split; reflexivity]].
  - intros u. rewrite filter_In, negb_true_iff. reflexivity.
  - intros Hno. induction users as [|x users IH]; [reflexivity |].
    simpl. rewrite (Hno x (or_introl eq_refl)). simpl. f_equal.
    apply IH. intros u Hu. apply Hno. now right.
Qed.

Lemma delete_removes_and_succeeds_witness :
  exists users',
    soap_endpoint "<DeleteUserRequest><id>2</id></DeleteUserRequest>"
      (Stored [mkUser 2 "Leo" "l@x.com" 25; mkUser 1 "Ana" "a@x.com" 30; mkUser 2 "Bo" "b@x.com" 52]) =
      (Ok (envelope deleted_body), Stored users') /\
    users' = [mkUser 1 "Ana" "a@x.com" 30].
Proof.
  destruct (delete_removes_and_succeeds
              "<DeleteUserRequest><id>2</id></DeleteUserRequest>"
              (mkParams (Some 2) None None None)
              [mkUser 2 "Leo" "l@x.com" 25; mkUser 1 "Ana" "a@x.com" 30; mkUser 2 "Bo" "b@x.com" 52]
              eq_refl) as (users' & E & F & _).
  exists users'. split; [exact E | exact F].
Defined.





Lemma parse_none (s : string) :
  parse_soap_request s = Ok None <-> Re.search operation_re s = None.
Proof.
  unfold parse_soap_request. destruct (Re.search operation_re s) as [op |].
  - split; [| discriminate].
    destruct (int_field "id>" id_re s); [| discriminate]. simpl.
    destruct (int_field "age>" age_re s); discriminate.
  - now split.
Qed.

Lemma found_false (p : Re.pattern) (s : string) :
  found p s = false <-> Re.search p s = None.
Proof. unfold found. destruct (Re.search p s); split; congruence. Qed.

(** What a request that is read says of the searches. *)
Lemma parse_some (s op : string) (p : params) :
  request op p s ->
  Re.search operation_re s = Some op /\
  (oversized id_re s || oversized age_re s)%bool = false /\
  p_email p = Re.search email_re s /\
  p_name p = Re.search name_re s /\
  (p_age p = None <-> Re.search age_re s = None) /\
  (p_id p = None <-> Re.search id_re s = None).
Proof.
  intros H.
  assert (O : (oversized id_re s || oversized age_re s)%bool = false).
  { destruct (oversized id_re s || oversized age_re s)%bool eqn:O; [| reflexivity].
    assert (K : parse_soap_request s = Raise ValueError).
    { apply parse_raise. repeat split; trivial. intros N.
      apply parse_none in N. unfold request in H. congruence. }
    unfold request in H. congruence. }
  unfold request, parse_soap_request in H.
  destruct (Re.search operation_re s) as [g |]; [| discriminate].
  destruct (int_field "id>" id_re s) as [i |] eqn:Fi; [| discriminate]. simpl in H.
  destruct (int_field "age>" age_re s) as [a |] eqn:Fa; [| discriminate]. simpl in H.
  inversion H; subst; clear H. simpl.
  pose proof (int_field_ok "id" s i Fi) as [Ni _].
  pose proof (int_field_ok "age" s a Fa) as [Na _].
  repeat split; trivial.
  - exact (text_field_search "email" s).
  - exact (text_field_search "name" s).
  - intros E. apply (search_none_no_number "age" s). now apply Na.
  - intros E. apply Na. now apply (search_none_no_number "age" s).
  - intros E. apply (search_none_no_number "id" s). now apply Ni.
  - intros E. apply Ni. now apply (search_none_no_number "id" s).
Qed.




(** The two faults that come before any operation, on concrete requests: an
    age of 4301 digits under an operation that is not one of the five, and a
    body that is not UTF-8. With 4300 digits the first request is answered. *)
Example long_number_and_bad_body_raise :
  soap_endpoint ("<PingRequest><age>" +++ String.concat "" (repeat "0" 4301) +++
                 "</age></PingRequest>") (Stored []) = (Raise ValueError, Stored []) /\
  soap_endpoint ("<PingRequest><age>" +++ String.concat "" (repeat "0" 4300) +++
                 "</age></PingRequest>") (Stored []) =
    (Ok (envelope unknown_operation_body), Stored []) /\
  option_map (fun m : M Response => m (Stored []))
             (soap_endpoint_of_body (list_byte_of_string "<GetAllUsersRequest/>" ++ [Byte.xff])) =
    Some (Raise UnicodeDecodeError, Stored []).
Proof. repeat split; vm_compute; reflexivity. Qed.


Lemma word_true (w : string) :
  word w = true <-> w <> EmptyString /\ all isword w = true.
Proof.
  unfold word. rewrite andb_true_iff, negb_true_iff, String.eqb_neq. tauto.
Qed.

Lemma plain_true (v : string) :
  plain v = true <-> v <> EmptyString /\ all notlt v = true.
Proof.
  unfold plain. rewrite andb_true_iff, negb_true_iff, String.eqb_neq. tauto.
Qed.

Lemma search_none_no_text (tag s : string) :
  Re.search (Re.mkPattern (open_tag tag) notlt (close_tag tag)) s = None <->
  no_text tag s.
Proof.
  set (pat := Re.mkPattern (open_tag tag) notlt (close_tag tag)). split.
  - intros S v (a & b & E). destruct (plain v) eqn:Pv; [| reflexivity].
    apply plain_true in Pv as [Hne A]. exfalso.
    apply (search_complete pat a v b Hne A). subst s. exact S.
  - intros N. destruct (Re.search pat s) as [g |] eqn:S; [| reflexivity].
    destruct (search_sound _ _ _ S) as (Hne & A & a & b & E). simpl in A, E.
    assert (Pg : plain g = true) by (apply plain_true; auto).
    rewrite (N g (ex_intro _ a (ex_intro _ b E))) in Pg. discriminate.
Qed.

Lemma search_some_text (tag s g : string) :
  Re.search (Re.mkPattern (open_tag tag) notlt (close_tag tag)) s = Some g ->
  holds tag g s /\ plain g = true.
Proof.
  intros S. destruct (search_sound _ _ _ S) as (Hne & A & a & b & E). simpl in A, E.
  split; [now exists a, b | apply plain_true; auto].
Qed.

(** C9, as the program has it. A non-numeric value raises no error, and the
    interpreter raises for nothing but a number of more than 4300 digits in an
    id or age element of a payload that names an operation; without such a
    number it returns. When it returns for a payload that names an operation,
    id (and likewise age) is left out of params exactly when no id (age)
    element of the payload holds a number, and is otherwise the number held by
    one of them: a first element with a non-numeric value leaves the field
    out only if no other element of that name is numeric. Name (and likewise
    email) is left out exactly when no element of that name holds a text that
    is not empty and has no opening angle bracket, and is otherwise such a
    text held by one of them. *)
Theorem parse_omits_field_without_number (s : string) :
  match parse_soap_request s with
  | Raise e =>
      e = ValueError /\
      (exists a w, names_at a w s /\ word w = true) /\
      (too_long "id" s \/ too_long "age" s)
  | Ok None => forall a w, names_at a w s -> word w = false
  | Ok (Some (op, p)) =>
      (p_id p = None <-> no_number "id" s) /\
      (forall n, p_id p = Some n ->
                 exists v, holds "id" v s /\ numeric v = true /\ int_of_str v = Ok n) /\
      (p_age p = None <-> no_number "age" s) /\
      (forall n, p_age p = Some n ->
                 exists v, holds "age" v s /\ numeric v = true /\ int_of_str v = Ok n) /\
      (p_name p = None <-> no_text "name" s) /\
      (forall v, p_name p = Some v -> holds "name" v s /\ plain v = true) /\
      (p_email p = None <-> no_text "email" s) /\
      (forall v, p_email p = Some v -> holds "email" v s /\ plain v = true)
  end /\
  (~ too_long "id" s -> ~ too_long "age" s -> exists r, parse_soap_request s = Ok r).
Proof.
  assert (R : forall e, parse_soap_request s = Raise e ->
                        e = ValueError /\
                        (exists a w, names_at a w s /\ word w = true) /\
                        (too_long "id" s \/ too_long "age" s)).
  { intros e H. apply parse_raise in H as (-> & So & O). split; [reflexivity |]. split.
    - destruct (Re.search operation_re s) as [op |] eqn:S; [| congruence].
      destruct (search_sound _ _ _ S) as (Hne & A & a & b & E). simpl in A, E.
      exists a, op. split; [now exists b | apply word_true; auto].
    - apply orb_prop in O as [O | O];
        [left; exact (oversized_too_long "id" s O) | right; exact (oversized_too_long "age" s O)]. }
  split.
  - destruct (parse_soap_request s) as [[[op p] |] | e] eqn:Hr; [| | now apply R].
    + destruct (parse_some s op p Hr) as (_ & _ & Pe & Pn & _ & _).
      unfold parse_soap_request in Hr.
      destruct (Re.search operation_re s) as [g |]; [| discriminate].
      destruct (int_field "id>" id_re s) as [i |] eqn:Fi; [| discriminate]. simpl in Hr.
      destruct (int_field "age>" age_re s) as [a |] eqn:Fa; [| discriminate]. simpl in Hr.
      inversion Hr; subst; clear Hr. simpl in *.
      destruct (int_field_ok "id" s i Fi) as [Ni Vi].
      destruct (int_field_ok "age" s a Fa) as [Na Va].
      split; [exact Ni |]. split; [exact Vi |]. split; [exact Na |]. split; [exact Va |].
      rewrite Pn, Pe.
      split; [exact (search_none_no_text "name" s) |].
      split; [intros v Ev; exact (search_some_text "name" s v Ev) |].
      split; [exact (search_none_no_text "email" s) |].
      intros v Ev. exact (search_some_text "email" s v Ev).
    + intros a w [b E]. destruct (word w) eqn:W; [| reflexivity].
      apply word_true in W as [Hne A]. exfalso.
      apply (search_complete operation_re a w b Hne A).
      change (Re.search operation_re (a +++ "<" +++ w +++ "Request" +++ b) = None).
      rewrite <- E. now apply parse_none.
  - intros Ti Ta. destruct (parse_soap_request s) as [r | e] eqn:Hr; [now exists r |].
    destruct (R e eq_refl) as (_ & _ & [T | T]); contradiction.
Qed.

Lemma parse_omits_field_without_number_witness :
  no_number "id" "<GetUserRequest><id>abc</id></GetUserRequest>" /\
  no_text "name" "<GetUserRequest><id>abc</id></GetUserRequest>".
Proof.
  pose proof (proj1 (parse_omits_field_without_number
                       "<GetUserRequest><id>abc</id></GetUserRequest>")) as H.
  split; [exact (proj1 (proj1 H) eq_refl) |].
  destruct H as (_ & _ & _ & _ & N & _). exact (proj1 N eq_refl).
Defined.

(** C9 fails as stated: the value inside the first id tag is not a number,
    yet id is in params, taken from the second id tag. *)
Lemma parse_takes_later_numeric_id :
  first_value "id" "<GetUserRequest><id>abc</id><id>5</id></GetUserRequest>" = Some "abc" /\
  numeric "abc" = false /\
  request "GetUser" (mkParams (Some 5) None None None)
          "<GetUserRequest><id>abc</id><id>5</id></GetUserRequest>".
Proof. repeat split; reflexivity. Qed.




(** ** Further lemmas on patterns *)

Lemma match_here_complete (p : Re.pattern) (g b : string) :
  g <> EmptyString -> all (Re.cls p) g = true ->
  Re.match_here p (Re.before p +++ g +++ Re.after p +++ b) <> None.
Proof.
  intros Hne A. unfold Re.match_here. rewrite skip_append.
  now apply group_complete.
Qed.

(** Greedy: no admissible run at the same place is longer than the group. *)
Lemma group_longest (c : ascii -> bool) (aft s g g' b' : string) :
  Re.group c aft s = Some g -> s = g' +++ aft +++ b' ->
  g' <> EmptyString -> all c g' = true ->
  (String.length g' <= String.length g)%nat.
Proof.
  revert g g'; induction s as [|x s IH]; intros g g' G E Hne A; simpl in G; [discriminate |].
  destruct g' as [|y g'']; [congruence |].
  simpl in E. injection E as Ex Es. subst y.
  simpl in A. apply andb_prop in A as [Cx A]. rewrite Cx in G.
  destruct (Re.group c aft s) as [g0 |] eqn:G0.
  - inversion G; subst g; clear G. simpl.
    destruct g'' as [|z g3]; [simpl; lia |].
    apply le_n_S. apply (IH g0 (String z g3) eq_refl); [assumption | discriminate | exact A].
  - destruct g'' as [|z g3]; [destruct (startswith aft s); inversion G; simpl; lia |].
    exfalso. apply (group_complete c aft (String z g3) b'); [discriminate | exact A |].
    now rewrite <- Es.
Qed.

Lemma match_here_longest (p : Re.pattern) (s g g' b' : string) :
  Re.match_here p s = Some g ->
  s = Re.before p +++ g' +++ Re.after p +++ b' ->
  g' <> EmptyString -> all (Re.cls p) g' = true ->
  (String.length g' <= String.length g)%nat.
Proof.
  unfold Re.match_here. intros M -> Hne A. rewrite skip_append in M.
  now apply (group_longest _ _ _ _ _ b' M).
Qed.

(** Leftmost, then longest: what [re.search] gives for these patterns. *)
Lemma search_leftmost (p : Re.pattern) (s g : string) :
  Re.search p s = Some g ->
  exists a b,
    s = a +++ Re.before p +++ g +++ Re.after p +++ b /\
    forall a' g' b',
      s = a' +++ Re.before p +++ g' +++ Re.after p +++ b' ->
      g' <> EmptyString -> all (Re.cls p) g' = true ->
      (String.length a <= String.length a')%nat /\
      (String.length a' = String.length a -> (String.length g' <= String.length g)%nat).
Proof.
  revert g; induction s as [|x s IH]; intros g; rewrite search_eq.
  - destruct (Re.match_here p EmptyString) as [g0 |] eqn:M; [| discriminate].
    intros H; inversion H; subst g0; clear H.
    destruct (match_here_sound _ _ _ M) as (_ & _ & b & E).
    exists EmptyString, b. split; [exact E |].
    intros a' g' b' E' Hne A. split; [simpl; lia |].
    destruct a'; [| discriminate]. intros _.
    now apply (match_here_longest p EmptyString g g' b' M E').
  - destruct (Re.match_here p (String x s)) as [g0 |] eqn:M.
    + intros H; inversion H; subst g0; clear H.
      destruct (match_here_sound _ _ _ M) as (_ & _ & b & E).
      exists EmptyString, b. split; [exact E |].
      intros a' g' b' E' Hne A. split; [simpl; lia |].
      destruct a'; [| discriminate]. intros _.
      now apply (match_here_longest p _ g g' b' M E').
    + intros H. destruct (IH g H) as (a & b & E & L).
      exists (String x a), b. split; [simpl; now rewrite E |].
      intros a' g' b' E' Hne A.
      destruct a' as [|y a''].
      * exfalso. apply (match_here_complete p g' b' Hne A).
        simpl in E'. now rewrite <- E'.
      * simpl in E'. injection E' as Ex Es.
        destruct (L a'' g' b' Es Hne A) as [L1 L2].
        split; [simpl; lia |]. simpl. intros K. apply L2. lia.
Qed.

Lemma int_digits_nonneg (s : string) (acc n : Z) :
  int_digits acc s = Ok n -> 0 <= acc -> 0 <= n.
Proof.
  revert acc; induction s as [|c s IH]; intros acc H Hacc; cbn [int_digits] in H.
  - inversion H; now subst.
  - destruct (isdecimal c) eqn:D; [| discriminate].
    apply (IH _ H). unfold isdecimal, between in D.
    apply andb_prop in D as [D _]. apply N.leb_le in D.
    assert (48 <= Z.of_N (code c)) by (change 48 with (Z.of_N 48); now apply N2Z.inj_le).
    lia.
Qed.

(** What the handler leaves in the data file. *)
Lemma endpoint_file (s : string) (f : file_state) :
  snd (soap_endpoint s f) =
  match parse_soap_request s, f with
  | Ok (Some (op, p)), Stored users => Stored (collection_after op p users)
  | _, _ => f
  end.
Proof.
  destruct (parse_soap_request s) as [[[op p] |] | e] eqn:Hr;
    [| | rewrite (endpoint_parse_raise s f e Hr); now destruct f].
  - rewrite (endpoint_request op p s f Hr). unfold collection_after, respond, bind.
    destruct (String.eqb_spec op "GetAllUsers") as [-> | _]; [now destruct f |].
    destruct (String.eqb_spec op "GetUser") as [-> | _].
    { destruct f as [| | users]; trivial. unfold GetUser, bind. simpl.
      now destruct (find (id_is (p_id p)) users). }
    destruct (String.eqb_spec op "CreateUser") as [-> | _].
    { destruct f as [| | users]; trivial. unfold CreateUser, bind, lift. simpl.
      now destruct (User_new (new_id users) (str_of_opt (p_name p)) (p_email p) (p_age p)). }
    destruct (String.eqb_spec op "UpdateUser") as [-> | _].
    { destruct f as [| | users]; trivial. unfold UpdateUser, bind. simpl.
      now destruct (update_loop (p_id p) p users) as [[users' w] |]. }
    destruct (String.eqb_spec op "DeleteUser") as [-> | _]; now destruct f.
  - rewrite (endpoint_unrecognised s f Hr). now destruct f.
Qed.

Lemma find_first (k : option Z) (l1 l2 : list User) (u : User) :
  (forall v, In v l1 -> id_is k v = false) -> id_is k u = true ->
  find (id_is k) (l1 ++ u :: l2) = Some u.
Proof.
  intros H1 Hu. induction l1 as [|v l1 IH]; simpl.
  - now rewrite Hu.
  - rewrite (H1 v (or_introl eq_refl)). apply IH. intros w Hw. apply H1. now right.
Qed.

Lemma find_miss (k : option Z) (users : list User) :
  (forall u, In u users -> id_is k u = false) -> find (id_is k) users = None.
Proof.
  intros H. destruct (find (id_is k) users) as [u |] eqn:F; [| reflexivity].
  apply find_some in F as [Hu E]. rewrite (H u Hu) in E. discriminate.
Qed.




Lemma id_is_assign (k : option Z) (p : params) (u : User) :
  id_is k (assign p u) = id_is k u.
Proof. destruct k; simpl; [now rewrite assign_id | reflexivity]. Qed.

Lemma assign_twice (p : params) (u : User) : assign p (assign p u) = assign p u.
Proof. unfold assign. destruct (p_name p), (p_email p), (p_age p); reflexivity. Qed.

Lemma update_loop_again (k : option Z) (p : params) (users users' : list User) (w : User) :
  update_loop k p users = Some (users', w) -> update_loop k p users' = Some (users', w).
Proof.
  revert users'; induction users as [|u users IH]; intros users' H; simpl in H; [discriminate |].
  destruct (id_is k u) eqn:E.
  - inversion H; subst. simpl. now rewrite id_is_assign, E, assign_twice.
  - destruct (update_loop k p users) as [[rest' w'] |]; [| discriminate].
    inversion H; subst. simpl. now rewrite E, (IH rest' eq_refl).
Qed.

Lemma update_loop_find (k : option Z) (p : params) (users : list User) :
  p_name p = None -> p_email p = None -> p_age p = None ->
  update_loop k p users = option_map (fun u => (users, u)) (find (id_is k) users).
Proof.
  intros Hn He Ha.
  assert (A : forall u, assign p u = u) by (intros u; unfold assign; now rewrite Hn, He, Ha).
  induction users as [|x users IH]; simpl; [reflexivity |].
  destruct (id_is k x); [now rewrite A |].
  rewrite IH. now destruct (find (id_is k) users).
Qed.

(** The exception that leaves the handler tells the fault. *)
Lemma endpoint_raise (s : string) (f : file_state) (e : exn) :
  fst (soap_endpoint s f) = Raise e ->
  (f = Absent /\ e = FileNotFoundError) \/ (f = Corrupt /\ e = LoadError) \/
  (loads f = true /\ e = ValidationError) \/ e = ValueError.
Proof.
  destruct (parse_soap_request s) as [[[op p] |] | e0] eqn:Hr;
    [| | rewrite (endpoint_parse_raise s f e0 Hr); apply parse_raise in Hr as (-> & _);
         intros H; inversion H; auto].
  - rewrite (endpoint_request op p s f Hr). unfold respond, bind.
    destruct (String.eqb op "GetAllUsers").
    { destruct f; simpl; intros H; inversion H; auto. }
    destruct (String.eqb op "GetUser").
    { destruct f as [| | users]; simpl; try (intros H; inversion H; now auto).
      unfold GetUser, bind. simpl. now destruct (find (id_is (p_id p)) users). }
    destruct (String.eqb op "CreateUser").
    { destruct f as [| | users]; simpl; try (intros H; inversion H; now auto).
      unfold CreateUser, bind, lift, User_new. simpl.
      destruct (p_email p); [destruct (p_age p) |]; simpl; intros H; inversion H; auto. }
    destruct (String.eqb op "UpdateUser").
    { destruct f as [| | users]; simpl; try (intros H; inversion H; now auto).
      unfold UpdateUser, bind. simpl.
      now destruct (update_loop (p_id p) p users) as [[users' w] |]. }
    destruct (String.eqb op "DeleteUser"); [| discriminate].
    destruct f; simpl; intros H; inversion H; auto.
  - now rewrite (endpoint_unrecognised s f Hr).
Qed.

(** The five operations on a data file that does not load. *)
Lemma endpoint_unloadable (s op : string) (p : params) :
  request op p s -> reads_store op = true ->
  soap_endpoint s Absent = (Raise FileNotFoundError, Absent) /\
  soap_endpoint s Corrupt = (Raise LoadError, Corrupt).
Proof.
  intros H R. rewrite !(endpoint_request op p s _ H). unfold reads_store in R.
  destruct (String.eqb op "GetAllUsers"); [now split |].
  destruct (String.eqb op "GetUser"); [now split |].
  destruct (String.eqb op "CreateUser"); [now split |].
  destruct (String.eqb op "UpdateUser"); [now split |].
  destruct (String.eqb op "DeleteUser"); [now split | discriminate].
Qed.

Lemma append_cancel_l (a b c : string) : a +++ b = a +++ c -> b = c.
Proof. induction a as [|x a IH]; simpl; intros H; [exact H | injection H as H; auto]. Qed.

Lemma append_length (a b : string) :
  String.length (a +++ b) = (String.length a + String.length b)%nat.
Proof. induction a as [|x a IH]; simpl; [reflexivity | now rewrite IH]. Qed.

Lemma append_cancel_r (a b c : string) : a +++ c = b +++ c -> a = b.
Proof.
  revert b; induction a as [|x a IH]; intros [|y b] H; simpl in H.
  - reflexivity.
  - apply (f_equal String.length) in H. simpl in H. rewrite append_length in H. lia.
  - apply (f_equal String.length) in H. simpl in H. rewrite append_length in H. lia.
  - injection H as -> H. now rewrite (IH b H).
Qed.

(** ** Further properties of the service *)

(** X1. A payload that the interpreter reads as none of the five operations,
    or as no operation at all, is answered with the Unknown-operation fragment
    in a 200 response, and the data file is neither read nor written: the
    answer is the same on a file that is missing or does not load. *)
Theorem unknown_operation_answered
        (s : string) (r : option (string * params)) (f : file_state) :
  parse_soap_request s = Ok r ->
  (forall op p, r = Some (op, p) -> reads_store op = false) ->
  soap_endpoint s f = (Ok (envelope unknown_operation_body), f) /\
  http_status (Ok (envelope unknown_operation_body)) = 200 /\
  contains "<message>Unknown operation</message>"
           (content (envelope unknown_operation_body)) = true.
Proof.
  intros Hr H. split; [| split; reflexivity].
  destruct r as [[op p] |].
  - specialize (H op p eq_refl). rewrite (endpoint_request op p s f Hr).
    unfold reads_store in H. repeat (apply orb_false_elim in H as [H ?]).
    now repeat match goal with E : String.eqb _ _ = false |- _ => rewrite E; clear E end.
  - now apply endpoint_unrecognised.
Qed.

Lemma unknown_operation_answered_witness :
  soap_endpoint "<ListUsersRequest><id>1</id></ListUsersRequest>" Corrupt =
    (Ok (envelope unknown_operation_body), Corrupt) /\
  http_status (Ok (envelope unknown_operation_body)) = 200 /\
  contains "<message>Unknown operation</message>"
           (content (envelope unknown_operation_body)) = true.
Proof.
  apply (unknown_operation_answered
           "<ListUsersRequest><id>1</id></ListUsersRequest>"
           (Some ("ListUsers", mkParams (Some 1) None None None)) Corrupt).
  - reflexivity.
  - intros op p H. inversion H. reflexivity.
Defined.

(** X2. The operation the interpreter reads is the word of the first place in
    the payload where an opening angle bracket is followed by a word and by
    Request, and the longest such word at that place; the interpreter gives
    the empty result exactly when the payload has no such place. *)
Theorem operation_is_first_longest_tag (s : string) :
  (parse_soap_request s = Ok None <-> forall a w, names_at a w s -> word w = false) /\
  (forall op p, request op p s ->
     word op = true /\
     exists a, names_at a op s /\
       forall a' w, names_at a' w s -> word w = true ->
         (String.length a <= String.length a')%nat /\
         (String.length a' = String.length a -> (String.length w <= String.length op)%nat)).
Proof.
  split.
  - split.
    + intros H a w [b E]. destruct (word w) eqn:W; [| reflexivity].
      apply word_true in W as [Hne A]. exfalso.
      apply (search_complete operation_re a w b Hne A).
      change (Re.search operation_re (a +++ "<" +++ w +++ "Request" +++ b) = None).
      rewrite <- E. unfold parse_soap_request in H.
      destruct (Re.search operation_re s); [| reflexivity].
      destruct (int_field "id>" id_re s); [| discriminate]. simpl in H.
      destruct (int_field "age>" age_re s); discriminate.
    + intros H. unfold parse_soap_request.
      destruct (Re.search operation_re s) as [op |] eqn:S; [| reflexivity].
      destruct (search_sound _ _ _ S) as (Hne & A & a & b & E). simpl in A, E.
      assert (W : word op = true) by (apply word_true; auto).
      rewrite (H a op (ex_intro _ b E)) in W. discriminate.
  - intros op p H. unfold request, parse_soap_request in H.
    destruct (Re.search operation_re s) as [g |] eqn:S; [| discriminate].
    assert (g = op) as ->.
    { destruct (int_field "id>" id_re s); [| discriminate]. simpl in H.
      destruct (int_field "age>" age_re s); [| discriminate]. simpl in H. congruence. }
    destruct (search_sound _ _ _ S) as (Hne & A & _).
    split; [apply word_true; auto |].
    destruct (search_leftmost _ _ _ S) as (a & b & E & L).
    exists a. split; [now exists b |].
    intros a' w [b' E'] W. apply word_true in W as [Wne WA].
    exact (L a' w b' E' Wne WA).
Qed.

(** X3. Whatever the payload, an id or an age in params is never negative,
    and a name or an email in params is never empty, never contains an opening
    angle bracket, and is the content of an element of that name in the
    payload. *)
Theorem parsed_fields_shape (s op : string) (p : params) :
  request op p s ->
  (forall n, p_id p = Some n -> 0 <= n) /\
  (forall n, p_age p = Some n -> 0 <= n) /\
  (forall v, p_name p = Some v ->
     v <> EmptyString /\ all notlt v = true /\ holds "name" v s) /\
  (forall v, p_email p = Some v ->
     v <> EmptyString /\ all notlt v = true /\ holds "email" v s).
Proof.
  intros H. unfold request, parse_soap_request in H.
  destruct (Re.search operation_re s) as [g |]; [| discriminate].
  destruct (int_field "id>" id_re s) as [i |] eqn:Hi; [| discriminate]. simpl in H.
  destruct (int_field "age>" age_re s) as [a |] eqn:Ha; [| discriminate]. simpl in H.
  destruct (int_field_ok "id" s i Hi) as [_ Vi].
  destruct (int_field_ok "age" s a Ha) as [_ Va].
  inversion H; subst; clear H. simpl.
  assert (N : forall v n, numeric v = true -> int_of_str v = Ok n -> 0 <= n).
  { intros v n _ E. apply int_of_str_ok in E as [_ E].
    apply (int_digits_nonneg _ _ _ E). lia. }
  assert (T : forall tag pat v,
             Re.before pat = open_tag tag -> Re.after pat = close_tag tag ->
             Re.cls pat = notlt ->
             text_field (tag +++ ">") pat s = Some v ->
             v <> EmptyString /\ all notlt v = true /\ holds tag v s).
  { intros tag pat v Eb Ea Ec F. unfold text_field in F.
    destruct (contains (tag +++ ">") s); [| discriminate].
    destruct (search_sound _ _ _ F) as (Hne & A & x & y & E).
    rewrite Eb, Ea in E. rewrite Ec in A.
    repeat split; trivial. now exists x, y. }
  repeat split.
  - intros n E. destruct (Vi n E) as (v & _ & Nv & Ev). exact (N v n Nv Ev).
  - intros n E. destruct (Va n E) as (v & _ & Nv & Ev). exact (N v n Nv Ev).
  - apply (T "name" name_re v); trivial.
  - apply (T "name" name_re v); trivial.
  - apply (T "name" name_re v); trivial.
  - apply (T "email" email_re v); trivial.
  - apply (T "email" email_re v); trivial.
  - apply (T "email" email_re v); trivial.
Qed.

Lemma parsed_fields_shape_witness :
  0 <= 7 /\
  ("a>b" <> EmptyString /\ all notlt "a>b" = true /\
   holds "name" "a>b" "<UpdateUserRequest><id>7</id><name>a>b</name></UpdateUserRequest>").
Proof.
  destruct (parsed_fields_shape
              "<UpdateUserRequest><id>7</id><name>a>b</name></UpdateUserRequest>"
              "UpdateUser" (mkParams (Some 7) (Some "a>b") None None) eq_refl)
    as (I & _ & N & _).
  split; [exact (I 7 eq_refl) | exact (N "a>b" eq_refl)].
Defined.

(** X4. Only CreateUser, UpdateUser and DeleteUser touch the data file: after
    any other request - GetAllUsers, GetUser, an unknown operation - the file
    is what it was, whatever its state. *)
Theorem reads_leave_file (s : string) (f : file_state) :
  (forall op p, request op p s ->
     op <> "CreateUser" /\ op <> "UpdateUser" /\ op <> "DeleteUser") ->
  snd (soap_endpoint s f) = f.
Proof.
  intros H. rewrite endpoint_file.
  destruct (parse_soap_request s) as [[[op p] |] |] eqn:Hr; trivial.
  destruct f as [| | users]; trivial.
  destruct (H op p Hr) as (C & U & D). unfold collection_after.
  apply String.eqb_neq in C, U, D. now rewrite C, U, D.
Qed.

Lemma reads_leave_file_witness :
  snd (soap_endpoint "<GetUserRequest><id>1</id></GetUserRequest>"
                     (Stored [mkUser 1 "Ana" "a@x.com" 30])) =
  Stored [mkUser 1 "Ana" "a@x.com" 30].
Proof.
  apply reads_leave_file.
  intros op p H. unfold request in H.
  assert (E : parse_soap_request "<GetUserRequest><id>1</id></GetUserRequest>" =
              Ok (Some ("GetUser", mkParams (Some 1) None None None))) by reflexivity.
  rewrite E in H. inversion H. repeat split; discriminate.
Defined.

(** X5. A GetUser request that follows an UpdateUser request for the id of a
    stored record returns the record the update wrote: the first record with
    that id is replaced, in place, by a record with the same id in which each
    supplied field has the supplied value and each other field its old value,
    and the 200 responses to both requests have the id, name, email and age
    elements of that record. *)
Theorem get_after_update (us g : string) (pu pg : params) (users : list User) (i : Z) :
  request "UpdateUser" pu us -> p_id pu = Some i ->
  (exists v, In v users /\ id v = i) ->
  request "GetUser" pg g -> p_id pg = Some i ->
  exists l1 u l2 w ru rg,
    users = l1 ++ u :: l2 /\ id u = i /\ (forall v, In v l1 -> id v <> i) /\
    serve [us; g] (Stored users) = ([Ok ru; Ok rg], Stored (l1 ++ w :: l2)) /\
    id w = i /\
    name w = match p_name pu with Some n => n | None => name u end /\
    email w = match p_email pu with Some e => e | None => email u end /\
    age w = match p_age pu with Some a => a | None => age u end /\
    shows w ru /\ shows w rg.
Proof.
  intros Hu Hi (v & Hv & Ev) Hg Hgi.
  destruct (first_match_split (p_id pu) users) as (l1 & u & l2 & -> & Eu & H1).
  { exists v. split; [exact Hv |]. rewrite Hi. simpl. now apply Z.eqb_eq. }
  exists l1, u, l2, (assign pu u),
         (envelope (updated_body (assign pu u))), (envelope (user_body (assign pu u))).
  assert (Ei : id u = i) by (rewrite Hi in Eu; simpl in Eu; now apply Z.eqb_eq).
  split; [reflexivity |]. split; [exact Ei |]. split.
  { intros w Hw E. specialize (H1 w Hw). rewrite Hi in H1. simpl in H1.
    apply Z.eqb_neq in H1. contradiction. }
  split.
  { simpl. rewrite (endpoint_update us pu _ Hu), (update_loop_first _ _ _ _ _ H1 Eu).
    rewrite (endpoint_get g pg _ Hg), Hgi, <- Hi.
    rewrite (find_first (p_id pu) l1 l2 (assign pu u) H1); [reflexivity |].
    now rewrite id_is_assign. }
  split; [now rewrite assign_id |].
  split; [unfold assign; destruct (p_name pu), (p_email pu), (p_age pu); reflexivity |].
  split; [unfold assign; destruct (p_name pu), (p_email pu), (p_age pu); reflexivity |].
  split; [unfold assign; destruct (p_name pu), (p_email pu), (p_age pu); reflexivity |].
  split; [apply shows_updated_body | apply shows_user_body].
Qed.

Lemma get_after_update_witness :
  exists l1 u l2 w ru rg,
    [mkUser 1 "Ana" "a@x.com" 30; mkUser 2 "Leo" "l@x.com" 25] = l1 ++ u :: l2 /\
    id u = 2 /\ (forall v, In v l1 -> id v <> 2) /\
    serve ["<UpdateUserRequest><id>2</id><age>26</age></UpdateUserRequest>";
           "<GetUserRequest><id>2</id></GetUserRequest>"]
          (Stored [mkUser 1 "Ana" "a@x.com" 30; mkUser 2 "Leo" "l@x.com" 25]) =
      ([Ok ru; Ok rg], Stored (l1 ++ w :: l2)) /\
    id w = 2 /\ name w = name u /\ email w = email u /\ age w = 26 /\
    shows w ru /\ shows w rg.
Proof.
  apply (get_after_update
           "<UpdateUserRequest><id>2</id><age>26</age></UpdateUserRequest>"
           "<GetUserRequest><id>2</id></GetUserRequest>"
           (mkParams (Some 2) None None (Some 26))
           (mkParams (Some 2) None None None)
           [mkUser 1 "Ana" "a@x.com" 30; mkUser 2 "Leo" "l@x.com" 25] 2).
  - reflexivity.
  - reflexivity.
  - exists (mkUser 2 "Leo" "l@x.com" 25). split; [right; now left | reflexivity].
  - reflexivity.
  - reflexivity.
Defined.



(** X7. UpdateUser is idempotent: handled twice in a row, the same request
    gets the same response twice and leaves the data file as one handling
    leaves it, whatever the state of the file. *)
Theorem update_twice (us : string) (p : params) (f : file_state) :
  request "UpdateUser" p us ->
  serve [us; us] f = ([fst (soap_endpoint us f); fst (soap_endpoint us f)],
                      snd (soap_endpoint us f)).
Proof.
  intros H. cbn [serve].
  destruct f as [| | users].
  - now rewrite !(proj1 (endpoint_unloadable us "UpdateUser" p H eq_refl)).
  - now rewrite !(proj2 (endpoint_unloadable us "UpdateUser" p H eq_refl)).
  - rewrite (endpoint_update us p users H).
    destruct (update_loop (p_id p) p users) as [[users' w] |] eqn:L.
    + rewrite (endpoint_update us p users' H), (update_loop_again _ _ _ _ _ L). reflexivity.
    + rewrite (endpoint_update us p users H), L. reflexivity.
Qed.

Lemma update_twice_witness :
  serve ["<UpdateUserRequest><id>2</id><age>26</age></UpdateUserRequest>";
         "<UpdateUserRequest><id>2</id><age>26</age></UpdateUserRequest>"]
        (Stored [mkUser 2 "Leo" "l@x.com" 25]) =
    ([Ok (envelope (updated_body (mkUser 2 "Leo" "l@x.com" 26)));
      Ok (envelope (updated_body (mkUser 2 "Leo" "l@x.com" 26)))],
     Stored [mkUser 2 "Leo" "l@x.com" 26]).
Proof.
  apply (update_twice "<UpdateUserRequest><id>2</id><age>26</age></UpdateUserRequest>"
                      (mkParams (Some 2) None None (Some 26))
                      (Stored [mkUser 2 "Leo" "l@x.com" 25])).
  reflexivity.
Defined.



(** X9. Positive ids stay positive: whatever the request, if every stored id
    is positive before it is handled, every stored id is positive afterwards;
    in particular the id CreateUser assigns is positive then. *)
Theorem ids_stay_positive (s : string) (f : file_state) :
  ids_positive f -> ids_positive (snd (soap_endpoint s f)).
Proof.
  intros P. rewrite endpoint_file.
  destruct (parse_soap_request s) as [[[op p] |] |]; trivial.
  destruct f as [| | users]; trivial.
  simpl in P. unfold collection_after, ids_positive.
  destruct (String.eqb op "CreateUser").
  { unfold User_new. destruct (p_email p); [destruct (p_age p) |]; trivial.
    apply Forall_app. split; [exact P |]. constructor; [| constructor]. simpl.
    destruct (new_id_next users) as [[_ ->] | (m & [Hm _] & ->)]; [lia |].
    apply in_map_iff in Hm as (v & <- & Hv).
    rewrite Forall_forall in P. specialize (P v Hv). lia. }
  destruct (String.eqb op "UpdateUser").
  { destruct (update_loop (p_id p) p users) as [[users' w] |] eqn:L; trivial.
    apply (Forall_map id (fun i => 0 < i)).
    rewrite (update_loop_ids _ _ _ _ _ L).
    now apply (Forall_map id (fun i => 0 < i)). }
  destruct (String.eqb op "DeleteUser"); trivial.
  rewrite Forall_forall in *. intros u Hu. apply P.
  now apply filter_In in Hu.
Qed.

Lemma ids_stay_positive_witness :
  ids_positive
    (snd (soap_endpoint
            "<CreateUserRequest><name>Ana</name><email>a@x.com</email><age>30</age></CreateUserRequest>"
            (Stored [mkUser 7 "Eva" "e@x.com" 41]))).
Proof.
  apply ids_stay_positive. simpl. constructor; [simpl; lia | constructor].
Defined.

(** X10. An UpdateUser request that supplies none of name, email and age
    changes nothing: it answers with the first record that has the id, as
    GetUser would find it, or with the not-found fragment, and the collection
    is the one that was stored. *)
Theorem update_without_fields (s : string) (p : params) (users : list User) :
  request "UpdateUser" p s ->
  p_name p = None -> p_email p = None -> p_age p = None ->
  soap_endpoint s (Stored users) =
    (Ok (envelope match find (id_is (p_id p)) users with
                  | Some u => updated_body u
                  | None => update_not_found_body
                  end),
     Stored users).
Proof.
  intros H Hn He Ha.
  rewrite (endpoint_update s p users H), (update_loop_find _ p users Hn He Ha).
  now destruct (find (id_is (p_id p)) users).
Qed.

Lemma update_without_fields_witness :
  soap_endpoint "<UpdateUserRequest><id>2</id></UpdateUserRequest>"
                (Stored [mkUser 1 "Ana" "a@x.com" 30; mkUser 2 "Leo" "l@x.com" 25]) =
    (Ok (envelope (updated_body (mkUser 2 "Leo" "l@x.com" 25))),
     Stored [mkUser 1 "Ana" "a@x.com" 30; mkUser 2 "Leo" "l@x.com" 25]).
Proof.
  apply (update_without_fields
           "<UpdateUserRequest><id>2</id></UpdateUserRequest>"
           (mkParams (Some 2) None None None)
           [mkUser 1 "Ana" "a@x.com" 30; mkUser 2 "Leo" "l@x.com" 25]);
    reflexivity.
Defined.

(** X11. When the stored ids are pairwise distinct, a GetUser request for the
    id of a stored record returns that very record, wherever it stands in the
    collection: the 200 response has the id, name, email and age elements of
    the record, and the collection is left alone. *)
Theorem get_stored_record (g : string) (p : params) (users : list User) (u : User) :
  request "GetUser" p g -> In u users -> p_id p = Some (id u) ->
  NoDup (map id users) ->
  exists r,
    soap_endpoint g (Stored users) = (Ok r, Stored users) /\
    r = envelope (user_body u) /\
    shows u r.
Proof.
  intros H Hu Hi U. exists (envelope (user_body u)).
  split; [| split; [reflexivity | apply shows_user_body]].
  apply in_split in Hu as (l1 & l2 & ->).
  rewrite (endpoint_get g p _ H), Hi, (find_first (Some (id u)) l1 l2 u); trivial.
  - intros v Hv. simpl. apply Z.eqb_neq. intros E.
    rewrite map_app in U. simpl in U. apply NoDup_remove_2 in U.
    apply U. apply in_or_app. left. rewrite <- E. now apply in_map.
  - simpl. apply Z.eqb_refl.
Qed.

Lemma get_stored_record_witness :
  exists r,
    soap_endpoint "<GetUserRequest><id>2</id></GetUserRequest>"
                  (Stored [mkUser 1 "Ana" "a@x.com" 30; mkUser 2 "Leo" "l@x.com" 25]) =
      (Ok r, Stored [mkUser 1 "Ana" "a@x.com" 30; mkUser 2 "Leo" "l@x.com" 25]) /\
    r = envelope (user_body (mkUser 2 "Leo" "l@x.com" 25)) /\
    shows (mkUser 2 "Leo" "l@x.com" 25) r.
Proof.
  apply (get_stored_record
           "<GetUserRequest><id>2</id></GetUserRequest>"
           (mkParams (Some 2) None None None)
           [mkUser 1 "Ana" "a@x.com" 30; mkUser 2 "Leo" "l@x.com" 25]
           (mkUser 2 "Leo" "l@x.com" 25)).
  - reflexivity.
  - right; now left.
  - reflexivity.
  - constructor; [simpl; intros [E | []]; discriminate |].
    constructor; [intros [] | constructor].
Defined.

(** X12. Start-up creates the data file only when it is missing, as an empty
    collection, and never touches a file that exists, not even one that does
    not load; after start-up no request fails for a missing file. *)
Theorem startup_prepares_file (f : file_state) (s : string) :
  init_db f <> Absent /\
  (f <> Absent -> init_db f = f) /\
  (f = Absent -> init_db f = Stored []) /\
  init_db (init_db f) = init_db f /\
  fst (soap_endpoint s (init_db f)) <> Raise FileNotFoundError.
Proof.
  repeat split.
  - destruct f; discriminate.
  - destruct f; [congruence | reflexivity | reflexivity].
  - now intros ->.
  - now destruct f.
  - intros H. apply endpoint_raise in H as [[A _] | [[_ B] | [[_ B] | B]]]; try discriminate.
    destruct f; discriminate.
Qed.

(** X13. The envelope hides nothing: two fragments wrapped into the same
    response text are the same fragment. *)
Theorem create_soap_response_injective (a b : string) :
  create_soap_response a = create_soap_response b -> a = b.
Proof.
  unfold create_soap_response. intros H.
  repeat (apply append_cancel_l in H).
  now apply append_cancel_r in H.
Qed.

Lemma create_soap_response_injective_witness : deleted_body = deleted_body.
Proof.
  apply create_soap_response_injective. reflexivity.
Defined.


(** ** Lemmas on rendering and reading back *)

Lemma int_digits_uint (d : Decimal.uint) (acc : Z) :
  int_digits acc (NilEmpty.string_of_uint d) = Ok (uint_value d acc).
Proof.
  revert acc; induction d as [| d IH | d IH | d IH | d IH | d IH | d IH | d IH | d IH | d IH | d IH];
    intros acc; [reflexivity | ..]; exact (IH _).
Qed.

Lemma uint_value_acc (d : Decimal.uint) (acc : positive) :
  Z.pos (Pos.of_uint_acc d acc) = uint_value d (Z.pos acc).
Proof.
  revert acc; induction d as [| d IH | d IH | d IH | d IH | d IH | d IH | d IH | d IH | d IH | d IH];
    intros acc; cbn [Pos.of_uint_acc uint_value]; [reflexivity | ..];
    rewrite IH; f_equal; lia.
Qed.

Lemma uint_value_of_uint (d : Decimal.uint) :
  Z.of_N (Pos.of_uint d) = uint_value d 0.
Proof.
  induction d as [| d IH | d IH | d IH | d IH | d IH | d IH | d IH | d IH | d IH | d IH];
    cbn [Pos.of_uint uint_value]; [reflexivity | exact IH | ..];
    cbn [Z.of_N]; rewrite uint_value_acc; reflexivity.
Qed.

Lemma int_digits_str_of_int (n : Z) :
  0 <= n -> str_of_int n <> EmptyString /\ int_digits 0 (str_of_int n) = Ok n.
Proof.
  intros Hn. unfold str_of_int.
  pose proof (DecimalZ.of_to n) as R.
  destruct n as [| q | q]; [split; [discriminate | reflexivity] | | lia].
  cbn [Z.to_int] in *. cbn [NilZero.string_of_int]. cbn [Z.of_int] in R.
  unfold Z.of_uint in R. rewrite uint_value_of_uint in R.
  pose proof (DecimalPos.Unsigned.to_uint_nonnil q) as NN.
  unfold NilZero.string_of_uint.
  destruct (Pos.to_uint q) eqn:E; [congruence | ..];
    (split; [discriminate |]); cbn [NilEmpty.string_of_uint];
    rewrite <- R; (etransitivity; [| apply int_digits_uint]); reflexivity.
Qed.

Lemma int_of_str_of_int (n : Z) :
  0 <= n -> short n = true -> int_of_str (str_of_int n) = Ok n.
Proof.
  intros Hn L. destruct (int_digits_str_of_int n Hn) as [Hne D]. unfold short in L.
  apply Nat.leb_le in L.
  destruct (str_of_int n) as [|c r]; [congruence |]. unfold int_of_str.
  destruct (Nat.ltb_spec max_str_digits (String.length (String c r))) as [K | _];
    [lia | exact D].
Qed.

Lemma int_digits_all (s : string) (acc n : Z) :
  int_digits acc s = Ok n -> all isdecimal s = true.
Proof.
  revert acc; induction s as [|c s IH]; intros acc H; cbn [int_digits] in H; [reflexivity |].
  simpl. destruct (isdecimal c); [| discriminate]. exact (IH _ H).
Qed.

Lemma numeric_str_of_int (n : Z) : 0 <= n -> numeric (str_of_int n) = true.
Proof.
  intros Hn. destruct (int_digits_str_of_int n Hn) as [Hne R].
  apply numeric_true. split; [exact Hne | exact (int_digits_all _ _ _ R)].
Qed.

Lemma group_exact (c : ascii -> bool) (x : ascii) (aft g r : string) :
  c x = false -> g <> EmptyString -> all c g = true -> startswith aft r = true ->
  Re.group c (String x aft) (g +++ String x r) = Some g.
Proof.
  intros Cx Hne A S. induction g as [|y g IH]; [congruence |].
  simpl in A. apply andb_prop in A as [Cy A]. simpl. rewrite Cy.
  destruct g as [|z g].
  - simpl. now rewrite Cx, Ascii.eqb_refl, S.
  - now rewrite (IH ltac:(discriminate) A).
Qed.

Lemma notlt_not_lt (c : ascii) : notlt c = true -> Ascii.eqb "<" c = false.
Proof.
  intros H. destruct (Ascii.eqb_spec "<"%char c) as [<- | _]; [discriminate | reflexivity].
Qed.

Lemma search_pass (p : Re.pattern) (b' a r : string) :
  Re.before p = String "<" b' -> all notlt a = true ->
  Re.search p (a +++ r) = Re.search p r.
Proof.
  intros B A. induction a as [|c a IH]; [reflexivity |].
  simpl in A. apply andb_prop in A as [Nc A].
  rewrite search_eq. unfold Re.match_here. rewrite B.
  cbn [String.append Re.skip]. rewrite (notlt_not_lt c Nc). now apply IH.
Qed.

Lemma isdecimal_notlt (s : string) : all isdecimal s = true -> all notlt s = true.
Proof.
  induction s as [|c s IH]; simpl; [reflexivity |]. intros H.
  apply andb_prop in H as [D A]. rewrite (IH A), andb_true_r.
  unfold isdecimal, between in D. apply andb_prop in D as [_ D]. apply N.leb_le in D.
  unfold notlt. apply negb_true_iff, N.eqb_neq. lia.
Qed.

Lemma int_field_found (tag : string) (s g : string) (n : Z) :
  Re.search (Re.mkPattern (open_tag tag) isdecimal (close_tag tag)) s = Some g ->
  int_of_str g = Ok n ->
  int_field (tag +++ ">") (Re.mkPattern (open_tag tag) isdecimal (close_tag tag)) s = Ok (Some n).
Proof.
  intros H V. unfold int_field. now rewrite (search_contains _ _ _ _ H), H, V.
Qed.

Lemma text_field_found (tag : string) (s g : string) :
  Re.search (Re.mkPattern (open_tag tag) notlt (close_tag tag)) s = Some g ->
  text_field (tag +++ ">") (Re.mkPattern (open_tag tag) notlt (close_tag tag)) s = Some g.
Proof.
  intros H. unfold text_field. now rewrite (search_contains _ _ _ _ H), H.
Qed.

Ltac here x aft g :=
  unfold Re.match_here; simpl;
  erewrite (group_exact _ x aft g); [reflexivity | reflexivity | assumption | assumption | reflexivity].

(** What the four patterns find in such a payload. *)
Lemma search_rendered (I N E A : string) :
  numeric I = true ->
  N <> EmptyString -> all notlt N = true ->
  E <> EmptyString -> all notlt E = true ->
  numeric A = true ->
  Re.search id_re (echo I N E A) = Some I /\
  Re.search name_re (echo I N E A) = Some N /\
  Re.search email_re (echo I N E A) = Some E /\
  Re.search age_re (echo I N E A) = Some A.
Proof.
  intros NI NN AN NE AE NA.
  apply numeric_true in NI as [NI DI]. apply numeric_true in NA as [NA DA].
  pose proof (isdecimal_notlt I DI) as LI.
  split; [| split; [| split]].
  - unfold echo. simpl. here "<"%char "/id>" I.
  - unfold echo. simpl.
    rewrite (search_pass name_re "name>" I); [| reflexivity | exact LI].
    simpl. here "<"%char "/name>" N.
  - unfold echo. simpl.
    rewrite (search_pass email_re "email>" I); [| reflexivity | exact LI]. simpl.
    rewrite (search_pass email_re "email>" N); [| reflexivity | exact AN]. simpl.
    here "<"%char "/email>" E.
  - unfold echo. simpl.
    rewrite (search_pass age_re "age>" I); [| reflexivity | exact LI]. simpl.
    rewrite (search_pass age_re "age>" N); [| reflexivity | exact AN]. simpl.
    rewrite (search_pass age_re "age>" E); [| reflexivity | exact AE]. simpl.
    here "<"%char "/age>" A.
Qed.

Lemma parse_rendered (I N E A : string) (i a : Z) :
  numeric I = true -> int_of_str I = Ok i ->
  N <> EmptyString -> all notlt N = true ->
  E <> EmptyString -> all notlt E = true ->
  numeric A = true -> int_of_str A = Ok a ->
  parse_soap_request (echo I N E A) =
  Ok (Some ("UpdateUser", mkParams (Some i) (Some N) (Some E) (Some a))).
Proof.
  intros NI VI NN AN NE AE NA VA.
  destruct (search_rendered I N E A NI NN AN NE AE NA) as (S1 & S2 & S3 & S4).
  assert (S0 : Re.search operation_re (echo I N E A) = Some "UpdateUser")
    by reflexivity.
  pose proof (int_field_found "id" _ I i S1 VI) as F1.
  pose proof (text_field_found "name" _ N S2) as F2.
  pose proof (text_field_found "email" _ E S3) as F3.
  pose proof (int_field_found "age" _ A a S4 VA) as F4.
  change (int_field "id>" id_re (echo I N E A) = Ok (Some i)) in F1.
  change (text_field "name>" name_re (echo I N E A) = Some N) in F2.
  change (text_field "email>" email_re (echo I N E A) = Some E) in F3.
  change (int_field "age>" age_re (echo I N E A) = Ok (Some a)) in F4.
  unfold parse_soap_request. rewrite S0, F1. cbn [rbind]. rewrite F4. cbn [rbind].
  now rewrite F2, F3.
Qed.

Lemma echo_render (u : User) :
  "<UpdateUserRequest>" +++ user_to_xml u +++ "</UpdateUserRequest>" =
  echo (str_of_int (id u)) (name u) (email u) (str_of_int (age u)).
Proof. unfold user_to_xml, echo. now rewrite !append_assoc. Qed.

Lemma parse_echo_render (u : User) :
  well_formed u ->
  parse_soap_request ("<UpdateUserRequest>" +++ user_to_xml u +++ "</UpdateUserRequest>") =
  if (short (id u) && short (age u))%bool
  then Ok (Some ("UpdateUser",
                 mkParams (Some (id u)) (Some (name u)) (Some (email u)) (Some (age u))))
  else Raise ValueError.
Proof.
  intros (Hi & Ha & Nn & An & Ne & Ae). rewrite echo_render.
  destruct (short (id u) && short (age u))%bool eqn:S.
  - apply andb_prop in S as [Si Sa].
    apply parse_rendered; trivial;
      first [now apply numeric_str_of_int | now apply int_of_str_of_int].
  - destruct (search_rendered _ _ _ _ (numeric_str_of_int _ Hi) Nn An Ne Ae
                              (numeric_str_of_int _ Ha)) as (S1 & _ & _ & S4).
    apply parse_raise. split; [reflexivity |]. split; [discriminate |].
    unfold oversized. rewrite S1, S4. unfold short in S.
    apply andb_false_iff in S as [S | S]; apply Nat.leb_gt in S; apply orb_true_iff;
      [left | right]; now apply Nat.ltb_lt.
Qed.

Lemma assign_own_fields (u : User) :
  assign (mkParams (Some (id u)) (Some (name u)) (Some (email u)) (Some (age u))) u = u.
Proof. now destruct u. Qed.

Lemma request_params_ok (s op : string) (p : params) : request op p s -> params_ok p.
Proof.
  intros H. unfold request, parse_soap_request in H.
  destruct (Re.search operation_re s) as [g |]; [| discriminate].
  destruct (int_field "id>" id_re s) as [i |] eqn:Hi; [| discriminate]. simpl in H.
  destruct (int_field "age>" age_re s) as [a |] eqn:Ha; [| discriminate]. simpl in H.
  destruct (int_field_ok "id" s i Hi) as [_ Vi].
  destruct (int_field_ok "age" s a Ha) as [_ Va].
  inversion H; subst; clear H.
  assert (T : forall tag pat v, Re.cls pat = notlt -> text_field tag pat s = Some v ->
                                v <> EmptyString /\ all notlt v = true).
  { intros tag pat v Ec F. unfold text_field in F.
    destruct (contains tag s); [| discriminate].
    destruct (search_sound _ _ _ F) as (Hne & A & _). rewrite Ec in A. now split. }
  assert (N : forall n, (exists v, holds "id" v s /\ numeric v = true /\ int_of_str v = Ok n) \/
                        (exists v, holds "age" v s /\ numeric v = true /\ int_of_str v = Ok n) ->
                        0 <= n).
  { intros n [(v & _ & _ & E) | (v & _ & _ & E)];
      (apply int_of_str_ok in E as [_ E]; apply (int_digits_nonneg _ _ _ E); lia). }
  repeat split; simpl.
  - intros n E. apply N. left. now apply Vi.
  - intros n E. apply N. right. now apply Va.
  - apply (T "name>" name_re v eq_refl H).
  - apply (T "name>" name_re v eq_refl H).
  - apply (T "email>" email_re v eq_refl H).
  - apply (T "email>" email_re v eq_refl H).
Qed.

Lemma assign_well_formed (p : params) (u : User) :
  params_ok p -> well_formed u -> well_formed (assign p u).
Proof.
  intros (_ & Pa & Pn & Pe) (Hi & Ha & Nn & An & Ne & Ae). unfold assign, well_formed.
  destruct (p_name p) as [n |]; [destruct (Pn n eq_refl) |];
    (destruct (p_email p) as [e |]; [destruct (Pe e eq_refl) |]);
    (destruct (p_age p) as [a |]; [pose proof (Pa a eq_refl) |]);
    simpl; repeat split; assumption.
Qed.

Lemma update_loop_well_formed (k : option Z) (p : params) (users users' : list User) (w : User) :
  params_ok p -> Forall well_formed users ->
  update_loop k p users = Some (users', w) -> Forall well_formed users'.
Proof.
  intros P. revert users'; induction users as [|u users IH]; intros users' F H;
    simpl in H; [discriminate |].
  inversion F as [| ? ? Fu Fr]; subst.
  destruct (id_is k u).
  - inversion H; subst. constructor; [now apply assign_well_formed | exact Fr].
  - destruct (update_loop k p users) as [[rest' w'] |]; [| discriminate].
    inversion H; subst. constructor; [exact Fu | now apply IH].
Qed.

(** X14. Reading back what was written: a record whose fields are as the
    service makes them, rendered by [user_to_xml] and wrapped in an UpdateUser
    tag, is read by the interpreter as an UpdateUser request with exactly the
    id, name, email and age of the record; beyond the digits [int] takes back
    for the id or the age, the reading is a ValueError. *)
Theorem parse_reads_rendered_record (u : User) (i a : Z) (n e : string) :
  u = mkUser i n e a -> 0 <= i -> 0 <= a ->
  n <> EmptyString -> all notlt n = true ->
  e <> EmptyString -> all notlt e = true ->
  parse_soap_request ("<UpdateUserRequest>" +++ user_to_xml u +++ "</UpdateUserRequest>") =
  if (short i && short a)%bool
  then Ok (Some ("UpdateUser", mkParams (Some i) (Some n) (Some e) (Some a)))
  else Raise ValueError.
Proof.
  intros -> Hi Ha Nn An Ne Ae.
  rewrite (parse_echo_render (mkUser i n e a)); [reflexivity |].
  repeat split; assumption.
Qed.

Lemma parse_reads_rendered_record_witness :
  request "UpdateUser" (mkParams (Some 12) (Some "Ana Ruiz") (Some "a@x.com") (Some 30))
          ("<UpdateUserRequest>" +++ user_to_xml (mkUser 12 "Ana Ruiz" "a@x.com" 30) +++
           "</UpdateUserRequest>").
Proof.
  exact (parse_reads_rendered_record
           (mkUser 12 "Ana Ruiz" "a@x.com" 30) 12 30 "Ana Ruiz" "a@x.com"
           eq_refl ltac:(lia) ltac:(lia)
           ltac:(discriminate) eq_refl ltac:(discriminate) eq_refl).
Defined.

(** X15. Sending a stored record back unchanged changes nothing: an
    UpdateUser request whose payload is the rendering of the first stored
    record with its id leaves the collection as it was, and is answered with
    that record; beyond the digits [int] takes back for the id or the age,
    the answer is a ValueError. *)
Theorem echo_update_changes_nothing (u : User) (l1 l2 : list User) :
  well_formed u -> (forall v, In v l1 -> id v <> id u) ->
  soap_endpoint ("<UpdateUserRequest>" +++ user_to_xml u +++ "</UpdateUserRequest>")
                (Stored (l1 ++ u :: l2)) =
  (if (short (id u) && short (age u))%bool
   then Ok (envelope (updated_body u))
   else Raise ValueError,
   Stored (l1 ++ u :: l2)).
Proof.
  intros W H1. pose proof (parse_echo_render u W) as P.
  destruct (short (id u) && short (age u))%bool.
  - rewrite (endpoint_update _ _ (l1 ++ u :: l2) P).
    cbn [p_id]. rewrite update_loop_first.
    + now rewrite assign_own_fields.
    + intros v Hv. simpl. apply Z.eqb_neq. now apply H1.
    + simpl. apply Z.eqb_refl.
  - exact (endpoint_parse_raise _ _ _ P).
Qed.

Lemma echo_update_changes_nothing_witness :
  soap_endpoint ("<UpdateUserRequest>" +++ user_to_xml (mkUser 2 "Leo" "l@x.com" 25) +++
                 "</UpdateUserRequest>")
                (Stored ([mkUser 1 "Ana" "a@x.com" 30] ++ mkUser 2 "Leo" "l@x.com" 25 :: [])) =
  (Ok (envelope (updated_body (mkUser 2 "Leo" "l@x.com" 25))),
   Stored ([mkUser 1 "Ana" "a@x.com" 30] ++ mkUser 2 "Leo" "l@x.com" 25 :: [])).
Proof.
  refine (echo_update_changes_nothing (mkUser 2 "Leo" "l@x.com" 25)
                                      [mkUser 1 "Ana" "a@x.com" 30] [] _ _).
  - repeat split; simpl; first [lia | discriminate | reflexivity].
  - intros v [<- | []]. discriminate.
Defined.

(** X16. The rendering loses nothing on records as the service makes them: two
    such records with the same [user_to_xml] text are the same record. *)
Theorem user_to_xml_injective (u v : User) :
  well_formed u -> well_formed v -> user_to_xml u = user_to_xml v -> u = v.
Proof.
  intros (Hi & Ha & Nn & An & Ne & Ae) (Hi' & Ha' & Nn' & An' & Ne' & Ae') E.
  assert (P : echo (str_of_int (id u)) (name u) (email u) (str_of_int (age u)) =
              echo (str_of_int (id v)) (name v) (email v) (str_of_int (age v)))
    by now rewrite <- !echo_render, E.
  destruct (search_rendered _ _ _ _ (numeric_str_of_int _ Hi) Nn An Ne Ae
                            (numeric_str_of_int _ Ha)) as (S1 & S2 & S3 & S4).
  destruct (search_rendered _ _ _ _ (numeric_str_of_int _ Hi') Nn' An' Ne' Ae'
                            (numeric_str_of_int _ Ha')) as (T1 & T2 & T3 & T4).
  rewrite P in S1, S2, S3, S4.
  rewrite T1 in S1. rewrite T2 in S2. rewrite T3 in S3. rewrite T4 in S4.
  inversion S1 as [Ei]. inversion S2 as [En]. inversion S3 as [Ee]. inversion S4 as [Ea].
  destruct (int_digits_str_of_int _ Hi) as [_ Du].
  destruct (int_digits_str_of_int _ Hi') as [_ Dv].
  destruct (int_digits_str_of_int _ Ha) as [_ Au].
  destruct (int_digits_str_of_int _ Ha') as [_ Av].
  rewrite <- Ei, Dv in Du. rewrite <- Ea, Av in Au.
  destruct u, v. simpl in *. congruence.
Qed.

Lemma user_to_xml_injective_witness :
  mkUser 2 "Leo" "l@x.com" 25 = mkUser 2 "Leo" "l@x.com" 25.
Proof.
  apply user_to_xml_injective; try reflexivity;
    repeat split; simpl; first [lia | discriminate | reflexivity].
Defined.

(** X17. No request can store a malformed record: if every stored record has
    a non-negative id and age and a non-empty name and email without an
    opening angle bracket, the same holds after any request is handled. *)
Theorem records_stay_well_formed (s : string) (f : file_state) :
  records_well_formed f -> records_well_formed (snd (soap_endpoint s f)).
Proof.
  intros W. rewrite endpoint_file.
  destruct (parse_soap_request s) as [[[op p] |] |] eqn:Hr; trivial.
  destruct f as [| | users]; trivial.
  pose proof (request_params_ok s op p Hr) as P.
  simpl in W. unfold collection_after, records_well_formed.
  destruct (String.eqb op "CreateUser").
  { unfold User_new. destruct (p_email p) as [e |] eqn:He; trivial.
    destruct (p_age p) as [a |] eqn:Ha; trivial.
    apply Forall_app. split; [exact W |]. constructor; [| constructor].
    destruct P as (_ & Pa & Pn & Pe). destruct (Pe e He) as [Ne Ae].
    unfold well_formed. simpl. repeat split; trivial.
    - destruct (new_id_next users) as [[_ ->] | (m & [Hm _] & ->)]; [lia |].
      apply in_map_iff in Hm as (v & <- & Hv).
      rewrite Forall_forall in W. destruct (W v Hv) as (Hi & _). lia.
    - now apply Pa.
    - destruct (p_name p) as [n |]; [now destruct (Pn n eq_refl) | discriminate].
    - destruct (p_name p) as [n |]; [now destruct (Pn n eq_refl) | reflexivity]. }
  destruct (String.eqb op "UpdateUser").
  { destruct (update_loop (p_id p) p users) as [[users' w] |] eqn:L; trivial.
    exact (update_loop_well_formed _ _ _ _ _ P W L). }
  destruct (String.eqb op "DeleteUser"); trivial.
  rewrite Forall_forall in *. intros u Hu. apply W.
  now apply filter_In in Hu.
Qed.

Lemma records_stay_well_formed_witness :
  records_well_formed
    (snd (soap_endpoint
            "<UpdateUserRequest><id>7</id><name>Eva Sol</name></UpdateUserRequest>"
            (Stored [mkUser 7 "Eva" "e@x.com" 41]))).
Proof.
  apply records_stay_well_formed. simpl. constructor; [| constructor].
  repeat split; simpl; first [lia | discriminate | reflexivity].
Defined.
